(** * Storage core: LRU replacer, buffer pool manager and B+ tree index

    A shallow embedding of the storage layer and the properties stated for
    it.  Embedded from the sources: lru_replacer.cpp, buffer_pool_manager.cpp,
    b_plus_tree_internal_page.cpp and b_plus_tree.cpp.  Not among the sources
    and modelled from the specification (each such definition says so): the
    disk manager, the [BPlusTreePage] base class, the leaf page and the header
    page.

    Conventions of the embedding:
    - [page_id_t] is an [int]; page ids are modelled as [Z].
    - [frame_id_t] values are only ever produced by the constructor's
      [static_cast<int>(i)] for [i < pool_size_]; they are modelled as [nat].
    - [pin_count_] is an [int]; it is modelled as a [Z] without wrap-around
      (signed overflow is undefined in C++, so only executions that stay
      below [INT_MAX] pins are described).
    - a [Page*] (and every tree-page pointer obtained from [GetData()]) is the
      index of the frame it points into; [nullptr] is [None].  A tree page is
      read and written through the frame at the moment of the access, so a
      pointer kept across [DeletePage] or an eviction sees what the frame
      holds then.
    - the mutexes are not modelled: every operation runs to completion on its
      own.
    - [assert] is modelled for both builds, see [NDEBUG].

    The definitions come first, the properties after them: the replacer, the
    pool and its invariant, the tree, and last the proof that a larger pool
    runs the same program. *)

From stdpp Require Import gmap strings list fin_maps.
From Stdlib Require Import ZArith Lia.

#[global] Set Warnings "-clear-no-such-hyp".

Open Scope Z_scope.

(** ** Identifiers and page contents *)

Abbreviation page_id_t := Z.
Abbreviation frame_id_t := nat.

Definition INVALID_PAGE_ID : page_id_t := -1.
Definition HEADER_PAGE_ID : page_id_t := 0.

(** [enum class IndexPageType { INVALID_INDEX_PAGE = 0, LEAF_PAGE, INTERNAL_PAGE }] *)
Inductive IndexPageType := INVALID_INDEX_PAGE | LEAF_PAGE | INTERNAL_PAGE.

(** The bytes of a page seen as a B+ tree page: the common header, the leaf's
    [next_page_id] and the entry array.  The array is the physical storage
    behind the header: slots beyond [tp_size] exist and keep what was last
    written there. *)
Record TreePage := mkTreePage {
  tp_page_type : IndexPageType;
  tp_size : Z;
  tp_max_size : Z;
  tp_parent_page_id : page_id_t;
  tp_page_id : page_id_t;
  tp_next_page_id : page_id_t;
  tp_array : list (Z * Z)
}.

(** What a frame's buffer holds: all zeroes (after [ResetMemory]), a tree page
    or the header page's records. *)
Inductive PageData :=
| ZeroPage
| TreeData (n : TreePage)
| HeaderData (recs : list (string * page_id_t)).

(** ** Disk manager *)

Inductive DiskEvent :=
| EvWritePage (p : page_id_t) (d : PageData)
| EvReadPage (p : page_id_t)
| EvAllocatePage (p : page_id_t)
| EvDeallocatePage (p : page_id_t).

(** Modelled from the spec: the DiskManager (external collaborator, section 6):
    [ReadPage], [WritePage], [AllocatePage] returning monotonically increasing
    fresh ids, [DeallocatePage].  The calls are recorded in [disk_log], most
    recent first. *)
Record DiskManager := mkDisk {
  disk_store : gmap Z PageData;
  next_page_id : page_id_t;
  disk_log : list DiskEvent
}.

(** Modelled from the spec: DiskManager::WritePage stores the page image. *)
Definition WritePage (p : page_id_t) (d : PageData) (dm : DiskManager) : DiskManager :=
  mkDisk (<[p := d]> (disk_store dm)) (next_page_id dm) (EvWritePage p d :: disk_log dm).

(** Modelled from the spec: DiskManager::ReadPage returns the stored image, zeroes for a page never written. *)
Definition ReadPage (p : page_id_t) (dm : DiskManager) : PageData * DiskManager :=
  (default ZeroPage (disk_store dm !! p),
   mkDisk (disk_store dm) (next_page_id dm) (EvReadPage p :: disk_log dm)).

(** Modelled from the spec: DiskManager::AllocatePage returns monotonically increasing fresh ids. *)
Definition AllocatePage (dm : DiskManager) : page_id_t * DiskManager :=
  (next_page_id dm,
   mkDisk (disk_store dm) (next_page_id dm + 1) (EvAllocatePage (next_page_id dm) :: disk_log dm)).

(** Modelled from the spec: DiskManager::DeallocatePage is bookkeeping only. *)
Definition DeallocatePage (p : page_id_t) (dm : DiskManager) : DiskManager :=
  mkDisk (disk_store dm) (next_page_id dm) (EvDeallocatePage p :: disk_log dm).

Definition is_write (e : DiskEvent) : bool :=
  match e with EvWritePage _ _ => true | _ => false end.

(** Number of [WritePage] calls recorded so far. *)
Definition writes (dm : DiskManager) : nat := length (List.filter is_write (disk_log dm)).

(** ** LRU replacer (lru_replacer.cpp) *)

Module LRUReplacer.

(** [usedFrames]: a [std::list<frame_id_t>]; the head of the list is
    [front()], its last element is [back()]. *)
Definition t := list frame_id_t.

Definition empty : t := [].

(** [std::find] followed by [erase] of the iterator: the first occurrence. *)
Fixpoint erase_first (f : frame_id_t) (l : t) : t :=
  match l with
  | [] => []
  | x :: l' => if decide (x = f) then l' else x :: erase_first f l'
  end.

Definition Victim (r : t) : option frame_id_t * t :=
  match r with
  | [] => (None, r)
  | _ => (last r, removelast r)
  end.

Definition Pin (frame_id : frame_id_t) (r : t) : t :=
  if decide (frame_id ∈ r) then erase_first frame_id r else r.

Definition Unpin (frame_id : frame_id_t) (r : t) : t :=
  if decide (frame_id ∈ r) then r else frame_id :: r.

Definition Size (r : t) : nat := length r.

(** [Unpin] of each frame of [fs], first to last. *)
Definition unpin_all (fs : list frame_id_t) (r : t) : t :=
  foldl (fun r f => Unpin f r) r fs.

(** [n] successive [Victim] calls: the results in call order, and the
    replacer left behind. *)
Fixpoint victims (n : nat) (r : t) : list (option frame_id_t) * t :=
  match n with
  | O => ([], r)
  | S n' => let '(v, r1) := Victim r in
            let '(vs, r2) := victims n' r1 in
            (v :: vs, r2)
  end.

End LRUReplacer.

(** ** Buffer pool manager (buffer_pool_manager.cpp) *)

(** A frame: the [Page] object of the pool. *)
Record Page := mkPage {
  data_ : PageData;
  page_id_ : page_id_t;
  pin_count_ : Z;
  is_dirty_ : bool
}.

(** A default-constructed [Page]. *)
Definition blank_page : Page := mkPage ZeroPage INVALID_PAGE_ID 0 false.

#[global] Instance Page_inhabited : Inhabited Page := populate blank_page.

Record BufferPoolManager := mkBPM {
  pool_size_ : nat;
  pages_ : list Page;
  page_table_ : gmap Z frame_id_t;
  free_list_ : list frame_id_t;
  replacer_ : LRUReplacer.t;
  disk_manager_ : DiskManager
}.

Definition set_pages (ps : list Page) (b : BufferPoolManager) : BufferPoolManager :=
  mkBPM (pool_size_ b) ps (page_table_ b) (free_list_ b) (replacer_ b) (disk_manager_ b).
Definition set_page_table (pt : gmap Z frame_id_t) (b : BufferPoolManager) : BufferPoolManager :=
  mkBPM (pool_size_ b) (pages_ b) pt (free_list_ b) (replacer_ b) (disk_manager_ b).
Definition set_free_list (fl : list frame_id_t) (b : BufferPoolManager) : BufferPoolManager :=
  mkBPM (pool_size_ b) (pages_ b) (page_table_ b) fl (replacer_ b) (disk_manager_ b).
Definition set_replacer (r : LRUReplacer.t) (b : BufferPoolManager) : BufferPoolManager :=
  mkBPM (pool_size_ b) (pages_ b) (page_table_ b) (free_list_ b) r (disk_manager_ b).
Definition set_disk (dm : DiskManager) (b : BufferPoolManager) : BufferPoolManager :=
  mkBPM (pool_size_ b) (pages_ b) (page_table_ b) (free_list_ b) (replacer_ b) dm.

(** [pages_[f]].  The frame ids the pool hands around are below [pool_size_]
    (lemma [reachable_inv]); outside the array, where the C++ is undefined,
    the model reads a blank page and drops writes. *)
Definition page_at (f : frame_id_t) (b : BufferPoolManager) : Page := pages_ b !!! f.

Definition upd_page (f : frame_id_t) (g : Page -> Page) (b : BufferPoolManager) : BufferPoolManager :=
  set_pages (<[f := g (page_at f b)]> (pages_ b)) b.

(** The constructor: [pool_size] default pages, every frame on the free list
    in ascending order, an empty replacer. *)
Definition new_BufferPoolManager (pool_size : nat) (dm : DiskManager) : BufferPoolManager :=
  mkBPM pool_size (replicate pool_size blank_page) ∅ (seq 0 pool_size) LRUReplacer.empty dm.

(** "Find a replacement page (R) from either the free list or the replacer":
    the block shared, line for line, by [FetchPageImpl] and [NewPageImpl].
    [None] is the early [return nullptr]. *)
Definition find_replacement (b : BufferPoolManager) : option (frame_id_t * BufferPoolManager) :=
  match free_list_ b with
  | [] =>
      match LRUReplacer.Victim (replacer_ b) with
      | (None, _) => None
      | (Some frame, r) =>
          let b1 := set_replacer r b in
          let pg := page_at frame b1 in
          if is_dirty_ pg
          then Some (frame, set_disk (WritePage (page_id_ pg) (data_ pg) (disk_manager_ b1)) b1)
          else Some (frame, b1)
      end
  | fl =>
      match last fl with
      | Some frame => Some (frame, set_free_list (removelast fl) b)
      | None => None
      end
  end.

(** Step 3 of both functions: drop the replaced page from the page table. *)
Definition erase_resident (frame : frame_id_t) (b : BufferPoolManager) : BufferPoolManager :=
  let old := page_id_ (page_at frame b) in
  match page_table_ b !! old with
  | Some _ => set_page_table (delete old (page_table_ b)) b
  | None => b
  end.

Definition FetchPageImpl (page_id : page_id_t) (b : BufferPoolManager)
  : option frame_id_t * BufferPoolManager :=
  match page_table_ b !! page_id with
  | Some frameId =>
      let b1 := set_replacer (LRUReplacer.Pin frameId (replacer_ b)) b in
      let b2 := upd_page frameId
                  (fun pg => mkPage (data_ pg) (page_id_ pg) (pin_count_ pg + 1) (is_dirty_ pg)) b1 in
      (Some frameId, b2)
  | None =>
      match find_replacement b with
      | None => (None, b)
      | Some (frame, b1) =>
          let b2 := erase_resident frame b1 in
          let b3 := set_page_table (<[page_id := frame]> (page_table_ b2)) b2 in
          let b4 := set_replacer (LRUReplacer.Pin frame (replacer_ b3)) b3 in
          let '(bytes, dm) := ReadPage page_id (disk_manager_ b4) in
          let b5 := upd_page frame (fun _ => mkPage bytes page_id 1 false) (set_disk dm b4) in
          (Some frame, b5)
      end
  end.

Definition UnpinPageImpl (page_id : page_id_t) (is_dirty : bool) (b : BufferPoolManager)
  : bool * BufferPoolManager :=
  match page_table_ b !! page_id with
  | None => (false, b)
  | Some f =>
      let pg := page_at f b in
      let b1 :=
        if decide (pin_count_ pg > 0) then
          let b' := upd_page f
                      (fun pg => mkPage (data_ pg) (page_id_ pg) (pin_count_ pg - 1) (is_dirty_ pg)) b in
          if decide (pin_count_ (page_at f b') = 0)
          then set_replacer (LRUReplacer.Unpin f (replacer_ b')) b'
          else b'
        else b in
      let b2 := upd_page f
                  (fun pg => mkPage (data_ pg) (page_id_ pg) (pin_count_ pg) (is_dirty_ pg || is_dirty)) b1 in
      (true, b2)
  end.

Definition FlushPageImpl (page_id : page_id_t) (b : BufferPoolManager)
  : bool * BufferPoolManager :=
  match page_table_ b !! page_id with
  | None => (false, b)
  | Some frameId =>
      if decide (page_id = INVALID_PAGE_ID) then (false, b)
      else
        let b1 := set_disk (WritePage page_id (data_ (page_at frameId b)) (disk_manager_ b)) b in
        (true, upd_page frameId
                 (fun pg => mkPage (data_ pg) (page_id_ pg) (pin_count_ pg) false) b1)
  end.

(** Returns the [Page*] and the value left in the output parameter [*page_id]. *)
Definition NewPageImpl (b : BufferPoolManager)
  : option frame_id_t * page_id_t * BufferPoolManager :=
  match find_replacement b with
  | None => (None, INVALID_PAGE_ID, b)
  | Some (frame, b1) =>
      let '(newPID, dm) := AllocatePage (disk_manager_ b1) in
      let b2 := erase_resident frame (set_disk dm b1) in
      let b3 := set_page_table (<[newPID := frame]> (page_table_ b2)) b2 in
      let b4 := set_replacer (LRUReplacer.Pin frame (replacer_ b3)) b3 in
      let b5 := upd_page frame (fun _ => mkPage ZeroPage newPID 1 false) b4 in
      (Some frame, newPID, b5)
  end.

Definition DeletePageImpl (page_id : page_id_t) (b : BufferPoolManager)
  : bool * BufferPoolManager :=
  if decide (page_id = INVALID_PAGE_ID) then (true, b)
  else
    match page_table_ b !! page_id with
    | None => (true, b)
    | Some frameId =>
        let page := page_at frameId b in
        if decide (pin_count_ page > 0) then (false, b)
        else
          let b1 := set_page_table (delete page_id (page_table_ b)) b in
          let dm1 := if is_dirty_ page
                     then WritePage (page_id_ page) (data_ page) (disk_manager_ b1)
                     else disk_manager_ b1 in
          let b2 := set_disk (DeallocatePage page_id dm1) b1 in
          let b3 := set_replacer (LRUReplacer.Pin frameId (replacer_ b2)) b2 in
          let b4 := upd_page frameId (fun _ => mkPage ZeroPage INVALID_PAGE_ID 0 false) b3 in
          (true, set_free_list (free_list_ b4 ++ [frameId]) b4)
    end.

(** The loop [for fid in 0 .. pool_size_): FlushPageImpl(pages_[fid].GetPageId())],
    with [n] iterations left. *)
Fixpoint flush_from (fid : frame_id_t) (n : nat) (b : BufferPoolManager) : BufferPoolManager :=
  match n with
  | O => b
  | S n' => flush_from (S fid) n' (snd (FlushPageImpl (page_id_ (page_at fid b)) b))
  end.

Definition FlushAllPagesImpl (b : BufferPoolManager) : BufferPoolManager :=
  flush_from 0%nat (pool_size_ b) b.

(** *** Reachable pool states *)

(** What a client can do with a pool: call its operations, and write into the
    buffer of a frame through the [Page*] it was given. *)
Inductive BpmOp :=
| OpFetchPage (p : page_id_t)
| OpUnpinPage (p : page_id_t) (is_dirty : bool)
| OpFlushPage (p : page_id_t)
| OpNewPage
| OpDeletePage (p : page_id_t)
| OpFlushAllPages
| OpWriteData (f : frame_id_t) (d : PageData).

Definition run_op (o : BpmOp) (b : BufferPoolManager) : BufferPoolManager :=
  match o with
  | OpFetchPage p => snd (FetchPageImpl p b)
  | OpUnpinPage p d => snd (UnpinPageImpl p d b)
  | OpFlushPage p => snd (FlushPageImpl p b)
  | OpNewPage => snd (NewPageImpl b)
  | OpDeletePage p => snd (DeletePageImpl p b)
  | OpFlushAllPages => FlushAllPagesImpl b
  | OpWriteData f d =>
      upd_page f (fun pg => mkPage d (page_id_ pg) (pin_count_ pg) (is_dirty_ pg)) b
  end.

Inductive reachable : BufferPoolManager -> Prop :=
| reach_new n dm : reachable (new_BufferPoolManager n dm)
| reach_step o b : reachable b -> reachable (run_op o b).

(** The frame holds no page. *)
Definition holds_no_page (pg : Page) : Prop :=
  page_id_ pg = INVALID_PAGE_ID /\ is_dirty_ pg = false /\ pin_count_ pg = 0.

(** Every frame of the pool is pinned. *)
Definition all_pinned (b : BufferPoolManager) : Prop :=
  forall f, (f < pool_size_ b)%nat -> pin_count_ (page_at f b) > 0.

(** The representation invariant of the pool: B1 (partition), B2 (the page
    table points at the frame holding the page), non-negative pin counts and
    blank metadata on free frames. *)
Record bpm_inv (b : BufferPoolManager) : Prop := mk_bpm_inv {
  inv_len : length (pages_ b) = pool_size_ b;
  inv_table : forall p f, page_table_ b !! p = Some f ->
                (f < pool_size_ b)%nat /\ page_id_ (page_at f b) = p;
  inv_free_nodup : NoDup (free_list_ b);
  inv_free : forall f, f ∈ free_list_ b ->
                (f < pool_size_ b)%nat /\ holds_no_page (page_at f b) /\
                (f ∉ replacer_ b) /\ (forall p, page_table_ b !! p <> Some f);
  inv_repl_nodup : NoDup (replacer_ b);
  inv_repl : forall f, f ∈ replacer_ b ->
                (f < pool_size_ b)%nat /\ pin_count_ (page_at f b) = 0;
  inv_pin : forall f, 0 <= pin_count_ (page_at f b);
  inv_part : forall f, (f < pool_size_ b)%nat ->
                f ∈ free_list_ b \/ f ∈ replacer_ b \/ pin_count_ (page_at f b) > 0
}.

(** The frame that [find_replacement] hands out. *)
Definition acquired (b b1 : BufferPoolManager) (frame : frame_id_t) : Prop :=
  pool_size_ b1 = pool_size_ b /\ pages_ b1 = pages_ b /\
  page_table_ b1 = page_table_ b /\
  ((free_list_ b = free_list_ b1 ++ [frame] /\ replacer_ b1 = replacer_ b /\
    disk_manager_ b1 = disk_manager_ b)
   \/ (free_list_ b = [] /\ free_list_ b1 = [] /\
       replacer_ b = replacer_ b1 ++ [frame] /\
       disk_manager_ b1 =
         if is_dirty_ (page_at frame b)
         then WritePage (page_id_ (page_at frame b)) (data_ (page_at frame b)) (disk_manager_ b)
         else disk_manager_ b)).

(** A disk on which nothing was allocated yet. *)
Definition empty_disk : DiskManager := mkDisk ∅ 0 [].

(** Running a list of pool operations, first to last. *)
Definition run_ops (os : list BpmOp) (b : BufferPoolManager) : BufferPoolManager :=
  foldl (fun b o => run_op o b) b os.

(** A pool of two frames, both pinned by [NewPage]. *)
Definition pool_full : BufferPoolManager :=
  run_ops [OpNewPage; OpNewPage] (new_BufferPoolManager 2 empty_disk).

(** A pool of three frames: page 0 resident, dirty and unpinned (in the
    replacer), page 1 resident and pinned twice, one frame free. *)
Definition pool_mixed : BufferPoolManager :=
  run_ops [OpNewPage; OpNewPage; OpFetchPage 1; OpUnpinPage 0 true]
          (new_BufferPoolManager 3 empty_disk).

(** A pool of one frame whose only page (page 0) is dirty and unpinned. *)
Definition pool_dirty_victim : BufferPoolManager :=
  run_ops [OpNewPage; OpUnpinPage 0 true] (new_BufferPoolManager 1 empty_disk).

(** ** B+ tree over the buffer pool *)

(** Keys are fixed-width [GenericKey]s ordered by the caller's comparator; the
    embedding takes integer keys with the integer order, values ([RID] in
    leaves, [page_id_t] in internal pages) as integers. *)
Abbreviation KeyType := Z.
Abbreviation MappingType := (Z * Z)%type.

(** The tree object.  [NDEBUG] records how the program was built: with
    [NDEBUG = true] every [assert] is compiled away, with [NDEBUG = false]
    (the default build) a failing [assert] aborts the program. *)
Record BPlusTree := mkBPlusTree {
  index_name_ : string;
  root_page_id_ : page_id_t;
  buffer_pool_manager_ : BufferPoolManager;
  leaf_max_size_ : Z;
  internal_max_size_ : Z;
  NDEBUG : bool
}.

Definition set_bpm (b : BufferPoolManager) (t : BPlusTree) : BPlusTree :=
  mkBPlusTree (index_name_ t) (root_page_id_ t) b (leaf_max_size_ t) (internal_max_size_ t) (NDEBUG t).
Definition set_root (r : page_id_t) (t : BPlusTree) : BPlusTree :=
  mkBPlusTree (index_name_ t) r (buffer_pool_manager_ t) (leaf_max_size_ t)
              (internal_max_size_ t) (NDEBUG t).

(** How a call can fail to return. *)
Inductive Fault :=
| AssertionFailed     (* a failing [assert] in a build with assertions *)
| NullDereference     (* use of the [nullptr] returned by the pool *)
| OutOfBounds         (* an array access at a negative index *)
| WrongPageKind       (* the header page read as a tree page, or conversely *)
| OutOfFuel.          (* the recursion bound of the embedding was reached *)

#[global] Instance Fault_eq_dec : EqDecision Fault.
Proof. solve_decision. Defined.

Inductive Result (A : Type) :=
| Ok (a : A) (t : BPlusTree)
| Crash (f : Fault).
Arguments Ok {A} a t.
Arguments Crash {A} f.

(** Computations on the tree object: state passing with faults. *)
Definition M (A : Type) : Type := BPlusTree -> Result A.

#[global] Instance M_ret : MRet M := fun A a t => Ok a t.
#[global] Instance M_bind : MBind M := fun A B f m t =>
  match m t with
  | Ok a t' => f a t'
  | Crash e => Crash e
  end.

(** [return a] *)
Definition Return {A} (a : A) : M A := mret a.
Definition crash {A} (e : Fault) : M A := fun _ => Crash e.
Definition get_tree : M BPlusTree := fun t => Ok t t.
(** [root_page_id_ = r] *)
Definition set_root_page_id (r : page_id_t) : M unit := fun t => Ok tt (set_root r t).

(** [assert(c)] *)
Definition assert_ (c : bool) : M unit :=
  fun t => if NDEBUG t then Ok tt t else if c then Ok tt t else Crash AssertionFailed.

(** Use of a [Page*] that may be [nullptr]. *)
Definition deref (p : option frame_id_t) : M frame_id_t :=
  match p with
  | Some f => Return f
  | None => crash NullDereference
  end.

(** *** Calls into the buffer pool *)

Definition FetchPage (page_id : page_id_t) : M (option frame_id_t) :=
  fun t => let '(r, b) := FetchPageImpl page_id (buffer_pool_manager_ t) in Ok r (set_bpm b t).

Definition NewPage : M (option frame_id_t * page_id_t) :=
  fun t => let '(r, pid, b) := NewPageImpl (buffer_pool_manager_ t) in Ok (r, pid) (set_bpm b t).

Definition UnpinPage (page_id : page_id_t) (is_dirty : bool) : M bool :=
  fun t => let '(r, b) := UnpinPageImpl page_id is_dirty (buffer_pool_manager_ t) in
           Ok r (set_bpm b t).

Definition DeletePage (page_id : page_id_t) : M bool :=
  fun t => let '(r, b) := DeletePageImpl page_id (buffer_pool_manager_ t) in Ok r (set_bpm b t).

(** *** Tree pages seen through a frame's buffer *)

Definition zero_tree_page : TreePage :=
  mkTreePage INVALID_INDEX_PAGE 0 0 0 0 0 [].

Definition as_tree (d : PageData) : option TreePage :=
  match d with
  | ZeroPage => Some zero_tree_page
  | TreeData n => Some n
  | HeaderData _ => None
  end.

Definition as_header (d : PageData) : option (list (string * Z)) :=
  match d with
  | ZeroPage => Some []
  | HeaderData recs => Some recs
  | TreeData _ => None
  end.

(** Read the tree page a pointer refers to: the current contents of the frame. *)
Definition load (this : frame_id_t) : M TreePage :=
  fun t => match as_tree (data_ (page_at this (buffer_pool_manager_ t))) with
           | Some n => Ok n t
           | None => Crash WrongPageKind
           end.

Definition store (this : frame_id_t) (n : TreePage) : M unit :=
  fun t => Ok tt (set_bpm (upd_page this
                             (fun pg => mkPage (TreeData n) (page_id_ pg) (pin_count_ pg) (is_dirty_ pg))
                             (buffer_pool_manager_ t)) t).

Definition modify (this : frame_id_t) (g : TreePage -> TreePage) : M unit :=
  n ← load this; store this (g n).

Definition with_array (a : list MappingType) (n : TreePage) : TreePage :=
  mkTreePage (tp_page_type n) (tp_size n) (tp_max_size n) (tp_parent_page_id n)
             (tp_page_id n) (tp_next_page_id n) a.
Definition with_size (s : Z) (n : TreePage) : TreePage :=
  mkTreePage (tp_page_type n) s (tp_max_size n) (tp_parent_page_id n)
             (tp_page_id n) (tp_next_page_id n) (tp_array n).
Definition with_parent (p : page_id_t) (n : TreePage) : TreePage :=
  mkTreePage (tp_page_type n) (tp_size n) (tp_max_size n) p
             (tp_page_id n) (tp_next_page_id n) (tp_array n).
Definition with_next (p : page_id_t) (n : TreePage) : TreePage :=
  mkTreePage (tp_page_type n) (tp_size n) (tp_max_size n) (tp_parent_page_id n)
             (tp_page_id n) p (tp_array n).

(** [array[i]] of physical storage: unwritten slots read as zero. *)
Definition slot (a : list MappingType) (i : nat) : MappingType := nth i a (0, 0).

(** [array[i] = x]: storage is there beyond the entries written so far. *)
Definition set_slot (i : nat) (x : MappingType) (a : list MappingType) : list MappingType :=
  if decide (i < length a)%nat then <[i := x]> a
  else a ++ replicate (i - length a) (0, 0) ++ [x].

Definition array_at (this : frame_id_t) (i : Z) : M MappingType :=
  n ← load this;
  if decide (i < 0) then crash OutOfBounds else Return (slot (tp_array n) (Z.to_nat i)).

Definition array_set (this : frame_id_t) (i : Z) (g : MappingType -> MappingType) : M unit :=
  n ← load this;
  if decide (i < 0) then crash OutOfBounds
  else store this (with_array (set_slot (Z.to_nat i) (g (slot (tp_array n) (Z.to_nat i)))
                                        (tp_array n)) n).

(** Modelled from the spec: the [BPlusTreePage] base class
    (b_plus_tree_page.cpp is not among the sources): the accessors of the
    common header of section 3, the root test [parent_page_id = INVALID] and
    the minimum sizes [ceil(max_size/2)] for internal pages and
    [ceil((max_size-1)/2)] for leaves. *)

(** Modelled from the spec: BPlusTreePage::GetSize reads the [size] header field. *)
Definition GetSize (this : frame_id_t) : M Z := n ← load this; Return (tp_size n).
(** Modelled from the spec: BPlusTreePage::SetSize writes the [size] header field. *)
Definition SetSize (this : frame_id_t) (s : Z) : M unit := modify this (with_size s).
(** Modelled from the spec: BPlusTreePage::IncreaseSize adds to the [size] header field. *)
Definition IncreaseSize (this : frame_id_t) (amount : Z) : M unit :=
  modify this (fun n => with_size (tp_size n + amount) n).
(** Modelled from the spec: BPlusTreePage::GetMaxSize reads the [max_size] header field. *)
Definition GetMaxSize (this : frame_id_t) : M Z := n ← load this; Return (tp_max_size n).
(** Modelled from the spec: BPlusTreePage::GetPageId reads the [page_id] header field. *)
Definition GetPageId (this : frame_id_t) : M page_id_t := n ← load this; Return (tp_page_id n).
(** Modelled from the spec: BPlusTreePage::GetParentPageId reads the [parent_page_id] header field. *)
Definition GetParentPageId (this : frame_id_t) : M page_id_t :=
  n ← load this; Return (tp_parent_page_id n).
(** Modelled from the spec: BPlusTreePage::SetParentPageId writes the [parent_page_id] header field. *)
Definition SetParentPageId (this : frame_id_t) (p : page_id_t) : M unit :=
  modify this (with_parent p).
(** Modelled from the spec: BPlusTreePage::IsLeafPage tests [page_type = LEAF]. *)
Definition IsLeafPage (this : frame_id_t) : M bool :=
  n ← load this;
  Return (match tp_page_type n with LEAF_PAGE => true | _ => false end).
(** Modelled from the spec: BPlusTreePage::IsRootPage tests [parent_page_id = INVALID] (the root has parent INVALID). *)
Definition IsRootPage (this : frame_id_t) : M bool :=
  n ← load this; Return (bool_decide (tp_parent_page_id n = INVALID_PAGE_ID)).

(** Modelled from the spec: the minimum sizes of section 3, [ceil(max_size/2)] for an internal page and [ceil((max_size-1)/2)] for a leaf. *)
Definition min_size_of (n : TreePage) : Z :=
  match tp_page_type n with
  | LEAF_PAGE => tp_max_size n / 2            (* ceil((max_size - 1) / 2) *)
  | _ => (tp_max_size n + 1) / 2              (* ceil(max_size / 2) *)
  end.
(** Modelled from the spec: BPlusTreePage::GetMinSize, see [min_size_of]. *)
Definition GetMinSize (this : frame_id_t) : M Z := n ← load this; Return (min_size_of n).

(** *** Internal pages (b_plus_tree_internal_page.cpp) *)

Module InternalPage.

Definition Init (this : frame_id_t) (page_id parent_id : page_id_t) (max_size : Z) : M unit :=
  n ← load this;
  store this (mkTreePage INTERNAL_PAGE 0 max_size parent_id page_id
                         (tp_next_page_id n) (tp_array n)).

Definition KeyAt (this : frame_id_t) (index : Z) : M KeyType :=
  size ← GetSize this;
  assert_ (bool_decide (index >= 0 /\ index < size));;
  e ← array_at this index;
  Return e.1.

Definition SetKeyAt (this : frame_id_t) (index : Z) (key : KeyType) : M unit :=
  size ← GetSize this;
  assert_ (bool_decide (index >= 0 /\ index < size));;
  array_set this index (fun e => (key, e.2)).

(** The search loops read the page and nothing else; they run on the page
    as loaded.  [n] iterations are left, [i] is the loop variable. *)
Fixpoint KeyIndex_from (a : list MappingType) (key : KeyType) (i n : nat) : Z :=
  match n with
  | O => -1
  | S n' => if decide ((slot a i).1 = key) then Z.of_nat i
            else KeyIndex_from a key (S i) n'
  end.

Definition KeyIndex (this : frame_id_t) (key : KeyType) : M Z :=
  n ← load this;
  Return (KeyIndex_from (tp_array n) key 0 (Z.to_nat (tp_size n))).

Fixpoint ValueIndex_from (a : list MappingType) (value : Z) (i n : nat) : Z :=
  match n with
  | O => -1
  | S n' => if decide ((slot a i).2 = value) then Z.of_nat i
            else ValueIndex_from a value (S i) n'
  end.

Definition ValueIndex (this : frame_id_t) (value : Z) : M Z :=
  n ← load this;
  Return (ValueIndex_from (tp_array n) value 0 (Z.to_nat (tp_size n))).

Definition ValueAt (this : frame_id_t) (index : Z) : M Z :=
  size ← GetSize this;
  assert_ (bool_decide (index >= 0 /\ index < size));;
  e ← array_at this index;
  Return e.2.

Definition SetValueAt (this : frame_id_t) (index : Z) (value : Z) : M unit :=
  size ← GetSize this;
  assert_ (bool_decide (index >= 0 /\ index < size));;
  array_set this index (fun e => (e.1, value)).

(** [for (i = 1; i < size; i++) if (array[i].first > key) return array[i-1].second;]
    [None] when the loop falls through. *)
Fixpoint Lookup_from (a : list MappingType) (key : KeyType) (i n : nat) : option Z :=
  match n with
  | O => None
  | S n' => if decide ((slot a i).1 > key) then Some (slot a (i - 1)).2
            else Lookup_from a key (S i) n'
  end.

Definition Lookup (this : frame_id_t) (key : KeyType) : M Z :=
  n ← load this;
  match Lookup_from (tp_array n) key 1 (Z.to_nat (tp_size n - 1)) with
  | Some v => Return v
  | None => e ← array_at this (tp_size n - 1); Return e.2
  end.

Definition PopulateNewRoot (this : frame_id_t) (old_value : Z) (new_key : KeyType)
           (new_value : Z) : M unit :=
  array_set this 0 (fun e => (e.1, old_value));;
  array_set this 1 (fun _ => (new_key, new_value));;
  SetParentPageId this INVALID_PAGE_ID;;
  SetSize this 2.

(** [for (i = size - 1; i > index; i--) array[i] = array[i - 1];]
    with [n] iterations left. *)
Fixpoint shift_right (a : list MappingType) (i n : nat) : list MappingType :=
  match n with
  | O => a
  | S n' => shift_right (set_slot i (slot a (i - 1)) a) (i - 1) n'
  end.

Definition InsertNodeAfter (this : frame_id_t) (old_value : Z) (new_key : KeyType)
           (new_value : Z) : M Z :=
  vi ← ValueIndex this old_value;
  let index := vi + 1 in
  assert_ (bool_decide (index > 0));;
  IncreaseSize this 1;;
  size ← GetSize this;
  modify this (fun n =>
    with_array (shift_right (tp_array n) (Z.to_nat (size - 1)) (Z.to_nat (size - 1 - index)))
               n);;
  array_set this index (fun _ => (new_key, new_value));;
  Return size.

(** "update children's parent page" for the entry [array[i]] of [this]:
    fetch the child, set its parent, unpin it dirty. *)
Definition adopt (this : frame_id_t) (i : Z) (parent : page_id_t) : M unit :=
  e ← array_at this i;
  childRawPage ← FetchPage e.2;
  assert_ (bool_decide (is_Some childRawPage));;
  child ← deref childRawPage;
  SetParentPageId child parent;;
  e ← array_at this i;
  UnpinPage e.2 true;;
  Return tt.

(** The loop of [MoveHalfTo], [n] iterations left. *)
Fixpoint MoveHalfTo_loop (this recipient : frame_id_t) (recipPageId : page_id_t)
         (copyIdx i : Z) (n : nat) : M unit :=
  match n with
  | O => Return tt
  | S n' =>
      e ← array_at this i;
      SetKeyAt recipient (i - copyIdx) e.1;;
      e ← array_at this i;
      SetValueAt recipient (i - copyIdx) e.2;;
      adopt this i recipPageId;;
      MoveHalfTo_loop this recipient recipPageId copyIdx (i + 1) n'
  end.

Definition MoveHalfTo (this recipient : frame_id_t) : M unit :=
  max ← GetMaxSize this;
  let total := max + 1 in
  size ← GetSize this;
  assert_ (bool_decide (size = total));;
  let copyIdx := Z.quot total 2 in
  recipPageId ← GetPageId recipient;
  MoveHalfTo_loop this recipient recipPageId copyIdx copyIdx (Z.to_nat (total - copyIdx));;
  SetSize this copyIdx;;
  SetSize recipient (total - copyIdx).

(** [for (i = index + 1; i < size; i++) array[i - 1] = array[i];] *)
Fixpoint shift_left (a : list MappingType) (i n : nat) : list MappingType :=
  match n with
  | O => a
  | S n' => shift_left (set_slot (i - 1) (slot a i) a) (S i) n'
  end.

Definition Remove (this : frame_id_t) (index : Z) : M unit :=
  size ← GetSize this;
  assert_ (bool_decide (index >= 0 /\ index < size));;
  (if decide (index < 0) then crash OutOfBounds else Return tt);;
  modify this (fun n =>
    with_array (shift_left (tp_array n) (Z.to_nat (index + 1)) (Z.to_nat (size - (index + 1))))
               n);;
  IncreaseSize this (-1).

Definition RemoveAndReturnOnlyChild (this : frame_id_t) : M Z :=
  ret ← ValueAt this 0;
  IncreaseSize this (-1);;
  size ← GetSize this;
  assert_ (bool_decide (size = 0));;
  Return ret.

(** The loop of [MoveAllTo], [n] iterations left. *)
Fixpoint MoveAllTo_loop (this recipient : frame_id_t) (recipPageId : page_id_t)
         (start i : Z) (n : nat) : M unit :=
  match n with
  | O => Return tt
  | S n' =>
      e ← array_at this i;
      SetKeyAt recipient (start + i) e.1;;
      e ← array_at this i;
      SetValueAt recipient (start + i) e.2;;
      adopt this i recipPageId;;
      MoveAllTo_loop this recipient recipPageId start (i + 1) n'
  end.

Definition MoveAllTo (this recipient : frame_id_t) (middle_key : KeyType) : M unit :=
  start ← GetSize recipient;
  size ← GetSize this;
  recipPageId ← GetPageId recipient;
  SetKeyAt this 0 middle_key;;
  MoveAllTo_loop this recipient recipPageId start 0 (Z.to_nat size);;
  SetSize recipient (start + size);;
  rsize ← GetSize recipient;
  max ← GetMaxSize this;
  assert_ (bool_decide (rsize <= max));;
  SetSize this 0;;
  pid ← GetPageId this;
  UnpinPage pid true;;
  rpid ← GetPageId recipient;
  UnpinPage rpid true;;
  Return tt.

Definition CopyLastFrom (this : frame_id_t) (pair : MappingType) : M unit :=
  size ← GetSize this;
  max ← GetMaxSize this;
  assert_ (bool_decide (size + 1 <= max));;
  array_set this size (fun _ => pair);;
  childRawPage ← FetchPage pair.2;
  assert_ (bool_decide (is_Some childRawPage));;
  child ← deref childRawPage;
  pid ← GetPageId this;
  SetParentPageId child pid;;
  cid ← GetPageId child;
  UnpinPage cid true;;
  IncreaseSize this 1.

Definition MoveFirstToEndOf (this recipient : frame_id_t) (middle_key : KeyType) : M unit :=
  size ← GetSize this;
  assert_ (bool_decide (size > 0));;
  e1 ← array_at this 1;
  let removed_key := e1.1 in
  e0 ← array_at this 0;
  let removed_pointer := e0.2 in
  IncreaseSize this (-1);;
  curr_size ← GetSize this;
  modify this (fun n => with_array (shift_left (tp_array n) 1 (Z.to_nat curr_size)) n);;
  CopyLastFrom recipient (middle_key, removed_pointer);;
  ppid ← GetParentPageId this;
  page ← FetchPage ppid;
  assert_ (bool_decide (is_Some page));;
  parent ← deref page;
  middle_index ← KeyIndex parent middle_key;
  SetKeyAt parent middle_index removed_key;;
  ppid ← GetParentPageId this;
  UnpinPage ppid true;;
  Return tt.

(** [for (i = 0; i < size; i++) array[i + 1] = array[i];] (ascending, as written) *)
Fixpoint copy_up (a : list MappingType) (i n : nat) : list MappingType :=
  match n with
  | O => a
  | S n' => copy_up (set_slot (S i) (slot a i) a) (S i) n'
  end.

Definition CopyFirstFrom (this : frame_id_t) (pair : MappingType) : M unit :=
  size ← GetSize this;
  max ← GetMaxSize this;
  assert_ (bool_decide (size < max));;
  modify this (fun n => with_array (copy_up (tp_array n) 0 (Z.to_nat size)) n);;
  array_set this 0 (fun e => (e.1, pair.2));;
  array_set this 1 (fun e => (pair.1, e.2));;
  page ← FetchPage pair.2;
  child ← deref page;
  pid ← GetPageId this;
  SetParentPageId child pid;;
  cid ← GetPageId child;
  UnpinPage cid true;;
  IncreaseSize this 1.

Definition MoveLastToFrontOf (this recipient : frame_id_t) (middle_key : KeyType) : M unit :=
  size ← GetSize this;
  assert_ (bool_decide (size > 0));;
  e ← array_at this (size - 1);
  let removed_key := e.1 in
  let removed_pointer := e.2 in
  IncreaseSize this (-1);;
  CopyFirstFrom recipient (middle_key, removed_pointer);;
  ppid ← GetParentPageId this;
  page ← FetchPage ppid;
  assert_ (bool_decide (is_Some page));;
  parent ← deref page;
  middle_index ← KeyIndex parent middle_key;
  SetKeyAt parent middle_index removed_key;;
  ppid ← GetParentPageId this;
  UnpinPage ppid true;;
  Return tt.

End InternalPage.

(** *** Leaf pages *)

(** Modelled from the spec: the leaf page (b_plus_tree_leaf_page.cpp is not
    among the sources).  From sections 3 and 4.3: entries are kept in
    ascending key order; [Insert] preserves the order; a split moves the
    entries from index [max_size / 2] on into the new leaf and splices it into
    the leaf chain ([new.next = old.next; old.next = new]); a coalesce moves
    all entries into the left page, which inherits the removed leaf's
    [next_page_id]; a redistribution moves the sibling's last entry to the
    front of the node (left sibling) or its first entry to the end of the node
    (right sibling) and updates the parent's separator of the right-hand page
    to that page's new first key. *)
Module LeafPage.

(** Modelled from the spec: the [size] entries of a leaf, in ascending key order. *)
Definition entries (n : TreePage) : list MappingType :=
  take (Z.to_nat (tp_size n)) (tp_array n).

(** Modelled from the spec: a leaf holding exactly the entries [l]. *)
Definition with_entries (l : list MappingType) (n : TreePage) : TreePage :=
  with_size (Z.of_nat (length l)) (with_array l n).

(** Modelled from the spec: LeafPage::Init, an empty leaf with no next page. *)
Definition Init (this : frame_id_t) (page_id parent_id : page_id_t) (max_size : Z) : M unit :=
  store this (mkTreePage LEAF_PAGE 0 max_size parent_id page_id INVALID_PAGE_ID []).

(** Modelled from the spec: the search of LeafPage::Lookup. *)
Fixpoint find_key (key : KeyType) (l : list MappingType) : option Z :=
  match l with
  | [] => None
  | (k, v) :: l' => if decide (k = key) then Some v else find_key key l'
  end.

(** Modelled from the spec: LeafPage::Lookup, the value stored under [key] if any. *)
Definition Lookup (this : frame_id_t) (key : KeyType) : M (option Z) :=
  n ← load this; Return (find_key key (entries n)).

(** Modelled from the spec: insertion that keeps the keys ascending and unique. *)
Fixpoint insert_sorted (key : KeyType) (value : Z) (l : list MappingType) : list MappingType :=
  match l with
  | [] => [(key, value)]
  | (k, v) :: l' =>
      if decide (key < k) then (key, value) :: l
      else if decide (key = k) then l
      else (k, v) :: insert_sorted key value l'
  end.

(** Modelled from the spec: LeafPage::Insert, order preserving; returns the new size. *)
Definition Insert (this : frame_id_t) (key : KeyType) (value : Z) : M Z :=
  modify this (fun n => with_entries (insert_sorted key value (entries n)) n);;
  GetSize this.

(** Modelled from the spec: LeafPage::RemoveAndDeleteRecord deletes the entry of [key] if present; returns the size. *)
Definition RemoveAndDeleteRecord (this : frame_id_t) (key : KeyType) : M Z :=
  modify this (fun n => with_entries (filter (fun e => e.1 <> key) (entries n)) n);;
  GetSize this.

(** Modelled from the spec: LeafPage::KeyAt, the key of entry [index]. *)
Definition KeyAt (this : frame_id_t) (index : Z) : M KeyType :=
  e ← array_at this index; Return e.1.

(** Modelled from the spec: LeafPage::MoveHalfTo, the entries from index [max_size / 2] on move to the new leaf, which is spliced into the leaf chain. *)
Definition MoveHalfTo (this recipient : frame_id_t) : M unit :=
  n ← load this;
  r ← load recipient;
  let idx := Z.to_nat (tp_max_size n / 2) in
  store recipient (with_next (tp_next_page_id n)
                     (with_entries (entries r ++ drop idx (entries n)) r));;
  modify this (fun n => with_next (tp_page_id r) (with_entries (take idx (entries n)) n)).

(** Modelled from the spec: LeafPage::MoveAllTo, all entries move to the left page, which inherits [next_page_id]. *)
Definition MoveAllTo (this recipient : frame_id_t) (middle_key : KeyType) : M unit :=
  n ← load this;
  modify recipient (fun r => with_next (tp_next_page_id n)
                               (with_entries (entries r ++ entries n) r));;
  modify this (with_entries []).

(** Modelled from the spec: the update of the parent's separator in a
    leaf redistribution; the entry of the parent that routes to page
    [right_id] gets the key [key]. *)
Definition update_separator (this : frame_id_t) (right_id : page_id_t) (key : KeyType)
  : M unit :=
  ppid ← GetParentPageId this;
  page ← FetchPage ppid;
  parent ← deref page;
  index ← InternalPage.ValueIndex parent right_id;
  InternalPage.SetKeyAt parent index key;;
  UnpinPage ppid true;;
  Return tt.

(** Modelled from the spec: LeafPage::MoveFirstToEndOf, the first entry moves to the end of the left neighbour. *)
Definition MoveFirstToEndOf (this recipient : frame_id_t) (middle_key : KeyType) : M unit :=
  n ← load this;
  match entries n with
  | [] => crash OutOfBounds
  | e :: rest =>
      modify recipient (fun r => with_entries (entries r ++ [e]) r);;
      store this (with_entries rest n);;
      update_separator this (tp_page_id n) (slot rest 0).1
  end.

(** Modelled from the spec: LeafPage::MoveLastToFrontOf, the last entry moves to the front of the right neighbour. *)
Definition MoveLastToFrontOf (this recipient : frame_id_t) (middle_key : KeyType) : M unit :=
  n ← load this;
  match last (entries n) with
  | None => crash OutOfBounds
  | Some e =>
      modify recipient (fun r => with_entries (e :: entries r) r);;
      store this (with_entries (removelast (entries n)) n);;
      rid ← GetPageId recipient;
      update_separator this rid e.1
  end.

End LeafPage.

(** Modelled from the spec: the header page (header_page.cpp is not among the
    sources), section 6: records [index name -> root page id], keyed by the
    index name, with [InsertRecord] and [UpdateRecord]. *)
Module HeaderPage.

(** Modelled from the spec: replacing the root id recorded for [name]. *)
Fixpoint update_rec (name : string) (root_id : page_id_t) (recs : list (string * Z))
  : list (string * Z) :=
  match recs with
  | [] => []
  | (n, r) :: recs' =>
      if decide (n = name) then (n, root_id) :: recs'
      else (n, r) :: update_rec name root_id recs'
  end.

(** Modelled from the spec: the root id recorded for [name]. *)
Fixpoint find_rec (name : string) (recs : list (string * Z)) : option Z :=
  match recs with
  | [] => None
  | (n, r) :: recs' => if decide (n = name) then Some r else find_rec name recs'
  end.

(** Modelled from the spec: the records of the header page, read through its frame. *)
Definition load_header (this : frame_id_t) : M (list (string * Z)) :=
  fun t => match as_header (data_ (page_at this (buffer_pool_manager_ t))) with
           | Some recs => Ok recs t
           | None => Crash WrongPageKind
           end.

(** Modelled from the spec: writing the records of the header page through its frame. *)
Definition store_header (this : frame_id_t) (recs : list (string * Z)) : M unit :=
  fun t => Ok tt (set_bpm (upd_page this
                    (fun pg => mkPage (HeaderData recs) (page_id_ pg) (pin_count_ pg) (is_dirty_ pg))
                    (buffer_pool_manager_ t)) t).

(** Modelled from the spec: HeaderPage::InsertRecord adds a record for a name not yet present. *)
Definition InsertRecord (this : frame_id_t) (name : string) (root_id : page_id_t) : M bool :=
  recs ← load_header this;
  match find_rec name recs with
  | Some _ => Return false
  | None => store_header this (recs ++ [(name, root_id)]);; Return true
  end.

(** Modelled from the spec: HeaderPage::UpdateRecord changes the record of a name that is present. *)
Definition UpdateRecord (this : frame_id_t) (name : string) (root_id : page_id_t) : M bool :=
  recs ← load_header this;
  match find_rec name recs with
  | Some _ => store_header this (update_rec name root_id recs);; Return true
  | None => Return false
  end.

End HeaderPage.

(** *** The tree (b_plus_tree.cpp) *)

(** The template parameter [N] of [Split], [CoalesceOrRedistribute],
    [FindSibling], [Coalesce] and [Redistribute]. *)
Inductive NodeKind := LeafNode | InternalNode.

Definition Init_N (k : NodeKind) :=
  match k with LeafNode => LeafPage.Init | InternalNode => InternalPage.Init end.
Definition MoveHalfTo_N (k : NodeKind) :=
  match k with LeafNode => LeafPage.MoveHalfTo | InternalNode => InternalPage.MoveHalfTo end.
Definition MoveAllTo_N (k : NodeKind) :=
  match k with LeafNode => LeafPage.MoveAllTo | InternalNode => InternalPage.MoveAllTo end.
Definition MoveFirstToEndOf_N (k : NodeKind) :=
  match k with
  | LeafNode => LeafPage.MoveFirstToEndOf
  | InternalNode => InternalPage.MoveFirstToEndOf
  end.
Definition MoveLastToFrontOf_N (k : NodeKind) :=
  match k with
  | LeafNode => LeafPage.MoveLastToFrontOf
  | InternalNode => InternalPage.MoveLastToFrontOf
  end.

Definition IsEmpty (t : BPlusTree) : bool := bool_decide (root_page_id_ t = INVALID_PAGE_ID).

(** [BPlusTree::FetchPage]: [buffer_pool_manager_->FetchPage(page_id)->GetData()].
    (Where the source casts the [Page*] itself to a tree page, the buffer is
    the first member of [Page], so the cast reads the same bytes.) *)
Definition FetchTreePage (page_id : page_id_t) : M frame_id_t :=
  page ← FetchPage page_id; deref page.

Definition UpdateRootPageId (insert_record : Z) : M unit :=
  page ← FetchPage HEADER_PAGE_ID;
  header_page ← deref page;
  t ← get_tree;
  (if decide (insert_record <> 0)
   then HeaderPage.InsertRecord header_page (index_name_ t) (root_page_id_ t)
   else HeaderPage.UpdateRecord header_page (index_name_ t) (root_page_id_ t));;
  UnpinPage HEADER_PAGE_ID true;;
  Return tt.

(** The loop of [FindLeafPage]; [fuel] bounds the number of levels descended. *)
Fixpoint FindLeafPage_loop (fuel : nat) (key : KeyType) (leftMost : bool)
         (cur : page_id_t) (pointer : frame_id_t) : M frame_id_t :=
  match fuel with
  | O => crash OutOfFuel
  | S fuel' =>
      leaf ← IsLeafPage pointer;
      if leaf : bool then Return pointer
      else
        next ← (if leftMost then InternalPage.ValueAt pointer 0
                else InternalPage.Lookup pointer key);
        UnpinPage cur false;;
        pointer' ← FetchTreePage next;
        FindLeafPage_loop fuel' key leftMost next pointer'
  end.

Definition FindLeafPage (fuel : nat) (key : KeyType) (leftMost : bool)
  : M (option frame_id_t) :=
  t ← get_tree;
  if IsEmpty t then Return None
  else
    pointer ← FetchTreePage (root_page_id_ t);
    leaf ← FindLeafPage_loop fuel key leftMost (root_page_id_ t) pointer;
    Return (Some leaf).

(** Returns the value found, [None] for [false]. *)
Definition GetValue (fuel : nat) (key : KeyType) : M (option Z) :=
  tar ← FindLeafPage fuel key false;
  match tar with
  | None => Return None
  | Some tar =>
      ret ← LeafPage.Lookup tar key;
      pid ← GetPageId tar;
      UnpinPage pid false;;
      Return ret
  end.

Definition StartNewTree (key : KeyType) (value : Z) : M unit :=
  '(rootPage, newPageId) ← NewPage;
  assert_ (bool_decide (is_Some rootPage));;
  root ← deref rootPage;
  t ← get_tree;
  LeafPage.Init root newPageId INVALID_PAGE_ID (leaf_max_size_ t);;
  set_root_page_id newPageId;;
  UpdateRootPageId 1;;
  LeafPage.Insert root key value;;
  UnpinPage newPageId true;;
  Return tt.

Definition Split (k : NodeKind) (node : frame_id_t) : M frame_id_t :=
  '(newPage, newPageId) ← NewPage;
  assert_ (bool_decide (is_Some newPage));;
  newNode ← deref newPage;
  parent_id ← GetParentPageId node;
  max ← GetMaxSize node;
  Init_N k newNode newPageId parent_id max;;
  MoveHalfTo_N k node newNode;;
  Return newNode.

Fixpoint InsertIntoParent (fuel : nat) (old_node : frame_id_t) (key : KeyType)
         (new_node : frame_id_t) : M unit :=
  match fuel with
  | O => crash OutOfFuel
  | S fuel' =>
      is_root ← IsRootPage old_node;
      if is_root : bool then
        '(newPage, pid) ← NewPage;
        set_root_page_id pid;;
        assert_ (bool_decide (is_Some newPage));;
        t ← get_tree;
        assert_ (match newPage with
                 | Some f => bool_decide (pin_count_ (page_at f (buffer_pool_manager_ t)) = 1)
                 | None => true
                 end);;
        newRoot ← deref newPage;
        InternalPage.Init newRoot (root_page_id_ t) INVALID_PAGE_ID (internal_max_size_ t);;
        old_id ← GetPageId old_node;
        new_id ← GetPageId new_node;
        InternalPage.PopulateNewRoot newRoot old_id key new_id;;
        SetParentPageId old_node (root_page_id_ t);;
        SetParentPageId new_node (root_page_id_ t);;
        UpdateRootPageId 0;;
        new_id ← GetPageId new_node;
        UnpinPage new_id true;;
        root_id ← GetPageId newRoot;
        UnpinPage root_id true;;
        Return tt
      else
        parentId ← GetParentPageId old_node;
        page ← FetchPage parentId;
        assert_ (bool_decide (is_Some page));;
        parent ← deref page;
        SetParentPageId new_node parentId;;
        new_id ← GetPageId new_node;
        UnpinPage new_id true;;
        old_id ← GetPageId old_node;
        new_id ← GetPageId new_node;
        InternalPage.InsertNodeAfter parent old_id key new_id;;
        size ← GetSize parent;
        max ← GetMaxSize parent;
        (if decide (size > max) then
           newLeafPage ← Split InternalNode parent;
           k0 ← InternalPage.KeyAt newLeafPage 0;
           InsertIntoParent fuel' parent k0 newLeafPage
         else Return tt);;
        UnpinPage parentId true;;
        Return tt
  end.

Definition InsertIntoLeaf (fuel : nat) (key : KeyType) (value : Z) : M bool :=
  leaf ← FindLeafPage fuel key false;
  leafPage ← deref leaf;
  exist ← LeafPage.Lookup leafPage key;
  match exist with
  | Some _ =>
      pid ← GetPageId leafPage;
      UnpinPage pid false;;
      Return false
  | None =>
      LeafPage.Insert leafPage key value;;
      size ← GetSize leafPage;
      max ← GetMaxSize leafPage;
      (if decide (size > max) then
         newLeafPage ← Split LeafNode leafPage;
         k0 ← LeafPage.KeyAt newLeafPage 0;
         InsertIntoParent fuel leafPage k0 newLeafPage
       else Return tt);;
      pid ← GetPageId leafPage;
      UnpinPage pid true;;
      Return true
  end.

Definition Insert (fuel : nat) (key : KeyType) (value : Z) : M bool :=
  t ← get_tree;
  if IsEmpty t then StartNewTree key value;; Return true
  else InsertIntoLeaf fuel key value.

Definition AdjustRoot (old_root_node : frame_id_t) : M bool :=
  leaf ← IsLeafPage old_root_node;
  if leaf : bool then
    size ← GetSize old_root_node;
    assert_ (bool_decide (size = 0));;
    parent_id ← GetParentPageId old_root_node;
    assert_ (bool_decide (parent_id = INVALID_PAGE_ID));;
    pid ← GetPageId old_root_node;
    UnpinPage pid false;;
    pid ← GetPageId old_root_node;
    DeletePage pid;;
    set_root_page_id INVALID_PAGE_ID;;
    UpdateRootPageId 0;;
    Return true
  else
    size ← GetSize old_root_node;
    if decide (size = 1) then
      newRootId ← InternalPage.RemoveAndReturnOnlyChild old_root_node;
      set_root_page_id newRootId;;
      UpdateRootPageId 0;;
      page ← FetchPage newRootId;
      assert_ (bool_decide (is_Some page));;
      newRoot ← deref page;
      SetParentPageId newRoot INVALID_PAGE_ID;;
      UnpinPage newRootId true;;
      pid ← GetPageId old_root_node;
      UnpinPage pid false;;
      pid ← GetPageId old_root_node;
      DeletePage pid;;
      Return true
    else Return false.

(** Returns the sibling pointer and whether the right sibling was taken. *)
Definition FindSibling (node : frame_id_t) : M (option frame_id_t * bool) :=
  parent_id ← GetParentPageId node;
  page ← FetchPage parent_id;
  assert_ (bool_decide (is_Some page));;
  parent ← deref page;
  node_id ← GetPageId node;
  index ← InternalPage.ValueIndex parent node_id;
  let siblingIndex := if decide (index = 0) then index + 1 else index - 1 in
  sibling_id ← InternalPage.ValueAt parent siblingIndex;
  sibling ← FetchPage sibling_id;
  ppid ← GetPageId parent;
  UnpinPage ppid false;;
  Return (sibling, bool_decide (index = 0)).

Definition Redistribute (k : NodeKind) (neighbor_node node : frame_id_t) (index : Z)
           (middle_key : KeyType) : M unit :=
  (if decide (index = 0)
   then MoveFirstToEndOf_N k neighbor_node node middle_key
   else MoveLastToFrontOf_N k neighbor_node node middle_key);;
  nid ← GetPageId node;
  UnpinPage nid true;;
  sid ← GetPageId neighbor_node;
  UnpinPage sid true;;
  Return tt.

(** [Coalesce], with the recursive call to [CoalesceOrRedistribute] on the
    parent passed as [recurse]. *)
Definition Coalesce_with (recurse : frame_id_t -> M bool) (k : NodeKind)
           (neighbor_node node parent : frame_id_t) (index : Z) : M bool :=
  nsize ← GetSize node;
  ssize ← GetSize neighbor_node;
  smax ← GetMaxSize neighbor_node;
  assert_ (bool_decide (nsize + ssize <= smax));;
  middle ← InternalPage.KeyAt parent index;
  MoveAllTo_N k node neighbor_node middle;;
  pId ← GetPageId node;
  UnpinPage pId true;;
  DeletePage pId;;
  sid ← GetPageId neighbor_node;
  UnpinPage sid true;;
  InternalPage.Remove parent index;;
  psize ← GetSize parent;
  pmin ← GetMinSize parent;
  if decide (psize < pmin) then recurse parent else Return false.

Fixpoint CoalesceOrRedistribute (fuel : nat) (k : NodeKind) (node : frame_id_t) : M bool :=
  match fuel with
  | O => crash OutOfFuel
  | S fuel' =>
      is_root ← IsRootPage node;
      if is_root : bool then AdjustRoot node
      else
        '(sibling, nPrevN2) ← FindSibling node;
        parent_id ← GetParentPageId node;
        parentPage ← FetchTreePage parent_id;
        nsize ← GetSize node;
        node2 ← deref sibling;
        ssize ← GetSize node2;
        nmax ← GetMaxSize node;
        if decide (nsize + ssize <= nmax) then
          (* std::swap(node, node2) when the right sibling was taken *)
          let node' := if nPrevN2 : bool then node2 else node in
          let node2' := if nPrevN2 : bool then node else node2 in
          node_id ← GetPageId node';
          removeIndex ← InternalPage.ValueIndex parentPage node_id;
          Coalesce_with (CoalesceOrRedistribute fuel' InternalNode) k node2' node'
                        parentPage removeIndex;;
          ppid ← GetPageId parentPage;
          UnpinPage ppid true;;
          Return true
        else
          node_id ← GetPageId node;
          nodeInParentIndex ← InternalPage.ValueIndex parentPage node_id;
          middle_key ← InternalPage.KeyAt parentPage nodeInParentIndex;
          Redistribute k node2 node nodeInParentIndex middle_key;;
          ppid ← GetPageId parentPage;
          UnpinPage ppid false;;
          Return false
  end.

Definition Remove (fuel : nat) (key : KeyType) : M unit :=
  t ← get_tree;
  if IsEmpty t then Return tt
  else
    leaf ← FindLeafPage fuel key false;
    delTar ← deref leaf;
    curSize ← LeafPage.RemoveAndDeleteRecord delTar key;
    min ← GetMinSize delTar;
    (if decide (curSize < min)
     then CoalesceOrRedistribute fuel LeafNode delTar;; Return tt
     else Return tt);;
    pid ← GetPageId delTar;
    UnpinPage pid true;;
    Return tt.

(** *** Running the index *)

(** A fresh index as the callers set it up: a pool of [pool_size] frames over
    an empty disk, the header page allocated first (it gets page id 0 and
    stays pinned by the caller), and an empty tree. *)
Definition new_BPlusTree (name : string) (pool_size : nat) (leaf_max_size internal_max_size : Z)
           (ndebug : bool) : BPlusTree :=
  mkBPlusTree name INVALID_PAGE_ID
              (NewPageImpl (new_BufferPoolManager pool_size empty_disk)).2
              leaf_max_size internal_max_size ndebug.

Inductive TreeOp :=
| OpInsert (key : KeyType) (value : Z)
| OpRemove (key : KeyType).

Definition run_tree_op (fuel : nat) (o : TreeOp) : M unit :=
  match o with
  | OpInsert k v => Insert fuel k v;; Return tt
  | OpRemove k => Remove fuel k
  end.

Fixpoint run_tree_ops (fuel : nat) (os : list TreeOp) : M unit :=
  match os with
  | [] => Return tt
  | o :: os' => run_tree_op fuel o;; run_tree_ops fuel os'
  end.

(** The record of the index in the header page, as the pool holds it. *)
Definition header_root (t : BPlusTree) : option page_id_t :=
  match page_table_ (buffer_pool_manager_ t) !! HEADER_PAGE_ID with
  | Some f =>
      match as_header (data_ (page_at f (buffer_pool_manager_ t))) with
      | Some recs => HeaderPage.find_rec (index_name_ t) recs
      | None => None
      end
  | None =>
      match as_header (default ZeroPage
                         (disk_store (disk_manager_ (buffer_pool_manager_ t)) !! HEADER_PAGE_ID)) with
      | Some recs => HeaderPage.find_rec (index_name_ t) recs
      | None => None
      end
  end.

(** The tree page with id [p], from the pool if resident, else from disk. *)
Definition tree_page (p : page_id_t) (t : BPlusTree) : option TreePage :=
  match page_table_ (buffer_pool_manager_ t) !! p with
  | Some f => as_tree (data_ (page_at f (buffer_pool_manager_ t)))
  | None =>
      match disk_store (disk_manager_ (buffer_pool_manager_ t)) !! p with
      | Some d => as_tree d
      | None => None
      end
  end.

(** What a lookup of [key] answers after running [os] on [t]: the fault if
    the program did not get that far, else the value found (or none). *)
Definition lookup_after (fuel : nat) (os : list TreeOp) (key : KeyType) (t : BPlusTree)
  : Fault + option Z :=
  match run_tree_ops fuel os t with
  | Ok _ t' =>
      match GetValue fuel key t' with
      | Ok v _ => inr v
      | Crash f => inl f
      end
  | Crash f => inl f
  end.

(** Where running [os] on [t] leaves the root: the fault, or [root_page_id_]
    and the header page's record. *)
Definition root_after (fuel : nat) (os : list TreeOp) (t : BPlusTree)
  : Fault + (page_id_t * option page_id_t) :=
  match run_tree_ops fuel os t with
  | Ok _ t' => inr (root_page_id_ t', header_root t')
  | Crash f => inl f
  end.

(** The map a sequence of operations denotes: the last unremoved insert of
    each key (an insert of a present key does nothing). *)
Definition denote (os : list TreeOp) : gmap Z Z :=
  foldl (fun m o => match o with
                    | OpInsert k v => match m !! k with Some _ => m | None => <[k := v]> m end
                    | OpRemove k => delete k m
                    end) ∅ os.

Definition inserts (keys : list Z) : list TreeOp := map (fun k => OpInsert k k) keys.
Definition removes (keys : list Z) : list TreeOp := map OpRemove keys.

(** The entries of the page with id [p], when it is still a page of the pool
    or of the disk. *)
Definition page_entries (p : page_id_t) (t : BPlusTree) : option (list MappingType) :=
  n ← tree_page p t; Some (take (Z.to_nat (tp_size n)) (tp_array n)).

(** The children of an internal page, left to right, and its separator keys
    (the keys of entries 1, 2, ...: entry 0 carries no key). *)
Definition children (p : page_id_t) (t : BPlusTree) : option (list page_id_t) :=
  es ← page_entries p t; Some (es.*2).
Definition separators (p : page_id_t) (t : BPlusTree) : option (list KeyType) :=
  es ← page_entries p t; Some (tail (es.*1)).

(** Is the page with id [p] resident in the pool? *)
Definition resident (p : page_id_t) (t : BPlusTree) : bool :=
  bool_decide (is_Some (page_table_ (buffer_pool_manager_ t) !! p)).

(** The concrete scenarios of section 8: [leaf_max = 4], [internal_max = 5],
    integer keys, a pool of [pool_size >= 16] frames. *)
Definition scenario_tree (pool_size : nat) (ndebug : bool) : BPlusTree :=
  new_BPlusTree "index" pool_size 4 5 ndebug.

(** Scenario 3: keys 1..10 in ascending order, then remove 1. *)
Definition scenario3 : list TreeOp := inserts (seqZ 1 10) ++ [OpRemove 1].

(** What scenario 3 is said to leave behind: the leftmost leaf (page 1)
    borrowed the first entry of its right sibling (page 2), both leaves are
    still children of the parent (page 3), and the separator routing to the
    sibling is the sibling's new first key. *)
Definition borrowed_from_right_sibling (t : BPlusTree) : Prop :=
  children 3 t = Some [1; 2; 4; 5] /\
  page_entries 1 t = Some [(2, 2); (3, 3)] /\
  page_entries 2 t = Some [(4, 4)] /\
  separators 3 t = Some [4; 5; 7].

(** What the code leaves behind: the two leftmost leaves merged into page 1,
    the right sibling's page deleted from the pool and its separator removed
    from the parent. *)
Definition merged_with_right_sibling (t : BPlusTree) : bool :=
  bool_decide (children 3 t = Some [1; 4; 5] /\
               page_entries 1 t = Some [(2, 2); (3, 3); (4, 4)] /\
               resident 2 t = false /\
               separators 3 t = Some [5; 7]).

(** Scenario 3 run on a pool of [pool_size] frames: did it end in the merged
    shape, with 1 gone and every [i] in 2..10 still mapped to [i]? *)
Definition scenario3_outcome (pool_size : nat) (ndebug : bool) : bool :=
  match run_tree_ops 20 scenario3 (scenario_tree pool_size ndebug) with
  | Ok _ t =>
      merged_with_right_sibling t &&
      bool_decide (lookup_after 20 [] 1 t = inr None) &&
      bool_decide (map (fun i => lookup_after 20 [] i t) (seqZ 2 9)
                   = map (fun i => inr (Some i)) (seqZ 2 9))
  | Crash _ => false
  end.

(** An internal page that holds [max_size + 1 = 2] entries, in frame 2 of a
    pool of four frames, in a build with assertions. *)
Definition overfull_internal : BPlusTree :=
  let t := new_BPlusTree "index" 4 4 1 false in
  set_bpm (run_ops [OpNewPage;
                    OpWriteData 2 (TreeData (mkTreePage INTERNAL_PAGE 2 1 INVALID_PAGE_ID 1 0
                                                        [(0, 5); (7, 6)]))]
                   (buffer_pool_manager_ t)) t.

(** *** The same run on a larger pool *)

(** Frames are taken from the back of the free list and the constructor
    fills it in ascending order, so a pool with [k] more frames behaves like
    the small one with every frame id shifted by [k], as long as the small
    pool never has to look for a victim.  [extend k b] is that larger pool. *)
Definition extend (k : nat) (b : BufferPoolManager) : BufferPoolManager :=
  mkBPM (k + pool_size_ b)
        (replicate k blank_page ++ pages_ b)
        (Nat.add k <$> page_table_ b)
        (seq 0 k ++ (Nat.add k <$> free_list_ b))
        (Nat.add k <$> replacer_ b)
        (disk_manager_ b).

Definition extend_tree (k : nat) (t : BPlusTree) : BPlusTree :=
  set_bpm (extend k (buffer_pool_manager_ t)) t.

(** The number of frames handed out so far: every successful
    [find_replacement] is followed by one [AllocatePage] or [ReadPage]. *)
Definition is_acquisition (e : DiskEvent) : bool :=
  match e with
  | EvAllocatePage _ | EvReadPage _ => true
  | _ => false
  end.

Definition acquisitions (t : BPlusTree) : nat :=
  length (List.filter is_acquisition (disk_log (disk_manager_ (buffer_pool_manager_ t)))).

(** Frames leave the free list only by being handed out. *)
Definition free_bound (t : BPlusTree) : Prop :=
  (pool_size_ (buffer_pool_manager_ t)
   <= length (free_list_ (buffer_pool_manager_ t)) + acquisitions t)%nat.

(** How a value computed on the small pool reads on the larger one: frame
    ids are shifted, everything else is the same. *)
Class Shift (A : Type) := shift : nat -> A -> A.

#[global] Instance Shift_frame : Shift nat := fun k f => (k + f)%nat.
#[global] Instance Shift_Z : Shift Z := fun _ z => z.
#[global] Instance Shift_bool : Shift bool := fun _ b => b.
#[global] Instance Shift_unit : Shift unit := fun _ u => u.
#[global] Instance Shift_TreePage : Shift TreePage := fun _ n => n.
#[global] Instance Shift_entry : Shift (Z * Z) := fun _ e => e.
#[global] Instance Shift_records : Shift (list (string * Z)) := fun _ l => l.
#[global] Instance Shift_value : Shift (option Z) := fun _ v => v.
#[global] Instance Shift_pointer : Shift (option nat) := fun k p => Nat.add k <$> p.
#[global] Instance Shift_new_page : Shift (option nat * Z) :=
  fun k r => (Nat.add k <$> r.1, r.2).
#[global] Instance Shift_sibling : Shift (option nat * bool) :=
  fun k r => (Nat.add k <$> r.1, r.2).
#[global] Instance Shift_tree : Shift BPlusTree := extend_tree.

(** [m'] on the larger pool does what [m] does on the small one: [m] only
    ever hands out more frames, and a run of [m] that returns with fewer
    frames handed out than the small pool has is matched step by step. *)
Definition sim (k : nat) {A : Type} `{Shift A} (m m' : M A) : Prop :=
  (forall t a t1, m t = Ok a t1 ->
     (acquisitions t <= acquisitions t1)%nat /\
     pool_size_ (buffer_pool_manager_ t1) = pool_size_ (buffer_pool_manager_ t)) /\
  (forall t a t1, free_bound t -> m t = Ok a t1 ->
     (acquisitions t1 < pool_size_ (buffer_pool_manager_ t))%nat ->
     m' (extend_tree k t) = Ok (shift k a) (extend_tree k t1) /\ free_bound t1).

(** A step that hands out no frame and shrinks no free list. *)
Definition quiet (t t1 : BPlusTree) : Prop :=
  acquisitions t1 = acquisitions t /\
  pool_size_ (buffer_pool_manager_ t1) = pool_size_ (buffer_pool_manager_ t) /\
  (length (free_list_ (buffer_pool_manager_ t))
   <= length (free_list_ (buffer_pool_manager_ t1)))%nat.

Definition acq_b (b : BufferPoolManager) : nat :=
  length (List.filter is_acquisition (disk_log (disk_manager_ b))).

(** Does [GetValue key] return on [t] with frames to spare? *)
Definition lookup_within (fuel : nat) (key : KeyType) (t : BPlusTree) : bool :=
  match GetValue fuel key t with
  | Ok _ t' =>
      bool_decide (acquisitions t' < pool_size_ (buffer_pool_manager_ t))%nat
  | Crash _ => false
  end.

(** * Properties of the replacer *)

Section replacer_facts.
Import LRUReplacer.

Lemma Victim_snoc (r : t) (f : frame_id_t) : Victim (r ++ [f]) = (Some f, r).
Proof.
  unfold Victim. destruct (r ++ [f]) eqn:E.
  - destruct r; discriminate.
  - rewrite <- E. by rewrite last_snoc, removelast_last.
Qed.

Lemma unpin_all_fresh (fs : list frame_id_t) (r : t) :
  NoDup fs -> (forall f, f ∈ fs -> f ∉ r) -> unpin_all fs r = rev fs ++ r.
Proof.
  revert r. induction fs as [|f fs IH]; intros r Hnd Hfresh; [done|].
  apply NoDup_cons in Hnd as [Hf Hnd].
  cbn [unpin_all foldl]. fold (unpin_all fs (Unpin f r)).
  unfold Unpin at 1. destruct (decide (f ∈ r)) as [Hin|_].
  - exfalso. apply (Hfresh f); [left | done].
  - rewrite IH; [ | done | ].
    + cbn [rev]. by rewrite <- app_assoc.
    + intros g Hg Hin. apply elem_of_cons in Hin as [->|Hin]; [done|].
      apply (Hfresh g); [by right | done].
Qed.

Lemma victims_rev (fs : list frame_id_t) (n : nat) :
  victims (length fs + n) (rev fs) = ((Some <$> fs) ++ replicate n None, empty).
Proof.
  induction fs as [|f fs IH].
  - cbn. induction n as [|n IHn]; [done|]. cbn. by rewrite IHn.
  - cbn [length rev Nat.add victims]. rewrite Victim_snoc, IH. done.
Qed.

Lemma erase_first_subseteq f (r : t) : erase_first f r ⊆ r.
Proof.
  induction r as [|x r IH]; [done|]. cbn. destruct (decide (x = f)); set_solver.
Qed.

Lemma erase_first_NoDup f (r : t) : NoDup r -> NoDup (erase_first f r).
Proof.
  induction r as [|x r IH]; [done|]. intros [Hx Hr]%NoDup_cons. cbn.
  destruct (decide (x = f)); [done|]. apply NoDup_cons. split; [|by apply IH].
  intros Hin. by apply erase_first_subseteq in Hin.
Qed.

Lemma elem_of_erase_first f g (r : t) :
  NoDup r -> g ∈ erase_first f r <-> g ∈ r /\ g <> f.
Proof.
  induction r as [|x r IH]; intros Hnd.
  - cbn. set_solver.
  - apply NoDup_cons in Hnd as [Hx Hr]. cbn. case_decide as Hxf.
    + subst x. rewrite elem_of_cons. split.
      * intros Hg. split; [by right|]. intros ->. done.
      * intros [[->|Hg] Hne]; done.
    + rewrite !elem_of_cons, IH by done. split.
      * intros [->|[Hg Hne]]; [split; [by left | done] | split; [by right | done]].
      * intros [[->|Hg] Hne]; [by left | right; done].
Qed.

Lemma Pin_NoDup f (r : t) : NoDup r -> NoDup (Pin f r).
Proof. unfold Pin. case_decide; [apply erase_first_NoDup | done]. Qed.

Lemma elem_of_Pin f g (r : t) : NoDup r -> g ∈ Pin f r <-> g ∈ r /\ g <> f.
Proof.
  intros Hnd. unfold Pin. case_decide as Hin.
  - by apply elem_of_erase_first.
  - split; [|by intros [? _]]. intros Hg. split; [done|]. by intros ->.
Qed.

Lemma Unpin_NoDup f (r : t) : NoDup r -> NoDup (Unpin f r).
Proof. unfold Unpin. case_decide; [done|]. intros. by apply NoDup_cons. Qed.

Lemma elem_of_Unpin f g (r : t) : g ∈ Unpin f r <-> g = f \/ g ∈ r.
Proof.
  unfold Unpin. case_decide as Hin; rewrite ?elem_of_cons; [|done].
  split; [by right|]. by intros [->|?].
Qed.

Lemma Victim_None (r : t) : (Victim r).1 = None <-> r = [].
Proof.
  destruct r as [|x r] using rev_ind; [done|].
  rewrite Victim_snoc. cbn. split; [done|]. by destruct r.
Qed.

Lemma Victim_None_eq (r : t) : (Victim r).1 = None -> Victim r = (None, r).
Proof. intros ->%Victim_None. done. Qed.

Lemma Victim_Some (r r' : t) f :
  Victim r = (Some f, r') -> r = r' ++ [f].
Proof.
  destruct r as [|x r _] using rev_ind; [done|].
  rewrite Victim_snoc. by intros [= -> ->].
Qed.

End replacer_facts.

(** C4. Starting from an empty replacer, unpinning the pairwise distinct
    frames f1, ..., fn once each, in that order and with nothing in between,
    makes the next n [Victim] calls succeed with f1, ..., fn in exactly that
    order, and makes the (n+1)-th call fail, leaving the replacer empty. *)
Theorem lru_victims_in_unpin_order (fs : list frame_id_t) :
  NoDup fs ->
  LRUReplacer.victims (S (length fs)) (LRUReplacer.unpin_all fs LRUReplacer.empty)
  = ((Some <$> fs) ++ [None], LRUReplacer.empty).
Proof.
  intros Hnd.
  rewrite unpin_all_fresh by (done || (intros ? _; apply not_elem_of_nil)).
  rewrite app_nil_r. replace (S (length fs)) with (length fs + 1)%nat by lia.
  apply victims_rev.
Qed.

Lemma lru_victims_in_unpin_order_witness :
  NoDup [3%nat; 1%nat; 2%nat] /\
  LRUReplacer.victims 4 (LRUReplacer.unpin_all [3%nat; 1%nat; 2%nat] LRUReplacer.empty)
  = ([Some 3%nat; Some 1%nat; Some 2%nat; None], LRUReplacer.empty).
Proof.
  assert (H : NoDup [3%nat; 1%nat; 2%nat])
    by (repeat (apply NoDup_cons; split; [set_solver|]); apply NoDup_nil_2).
  split; [exact H|]. exact (lru_victims_in_unpin_order [3%nat; 1%nat; 2%nat] H).
Defined.

(** * Properties of the buffer pool *)

Section pool_facts.
Import LRUReplacer.

Lemma page_at_insert_eq (b b' : BufferPoolManager) f pg :
  pages_ b' = <[f := pg]> (pages_ b) -> (f < length (pages_ b))%nat ->
  page_at f b' = pg.
Proof. unfold page_at. intros -> Hf. by apply list_lookup_total_insert_eq. Qed.

Lemma page_at_insert_ne (b b' : BufferPoolManager) f g pg :
  pages_ b' = <[f := pg]> (pages_ b) -> f <> g -> page_at g b' = page_at g b.
Proof. unfold page_at. intros -> Hf. by apply list_lookup_total_insert_ne. Qed.

Lemma page_at_same (b b' : BufferPoolManager) f :
  pages_ b' = pages_ b -> page_at f b' = page_at f b.
Proof. unfold page_at. by intros ->. Qed.

Lemma find_replacement_Some b frame b1 :
  find_replacement b = Some (frame, b1) -> acquired b b1 frame.
Proof.
  unfold find_replacement, acquired. destruct (free_list_ b) as [|x fl] eqn:Efl.
  - destruct (Victim (replacer_ b)) as [[f|] r] eqn:EV; [|done].
    apply Victim_Some in EV.
    replace (page_at f (set_replacer r b)) with (page_at f b) by done.
    destruct (is_dirty_ (page_at f b)) eqn:Ed; intros [= <- <-]; cbn;
      rewrite ?Efl; repeat split; right; rewrite Ed; done.
  - destruct (last (x :: fl)) as [f|] eqn:El; [|done].
    apply last_Some in El as [l' El]. rewrite El, removelast_last.
    intros [= <- <-]. cbn. repeat split. by left.
Qed.

Lemma find_replacement_None b :
  find_replacement b = None <-> free_list_ b = [] /\ (Victim (replacer_ b)).1 = None.
Proof.
  unfold find_replacement. destruct (free_list_ b) as [|x fl] eqn:Efl.
  - destruct (Victim (replacer_ b)) as [[f|] r] eqn:EV; cbn.
    + destruct (is_dirty_ _); split; [done | intros [_ [=]] | done | intros [_ [=]]].
    + done.
  - destruct (last (x :: fl)) as [f|] eqn:El.
    + split; [done | intros [[=] _]].
    + exfalso. destruct fl as [|y fl] using rev_ind; [done|].
      by rewrite app_comm_cons, last_snoc in El.
Qed.

(** Installing a page into an acquired frame keeps the invariant. *)
Lemma install_inv b b1 frame pg' b' :
  bpm_inv b -> acquired b b1 frame ->
  pin_count_ pg' = 1 ->
  pool_size_ b' = pool_size_ b ->
  pages_ b' = <[frame := pg']> (pages_ b) ->
  page_table_ b' = <[page_id_ pg' := frame]> (delete (page_id_ (page_at frame b)) (page_table_ b)) ->
  free_list_ b' = free_list_ b1 ->
  replacer_ b' = Pin frame (replacer_ b1) ->
  bpm_inv b'.
Proof.
  intros I (Hps & Hpg & Hpt & Hacq) Hpin Eps Epg Ept Efl Erp.
  assert (Hfr : (frame < pool_size_ b)%nat /\ (frame ∉ free_list_ b1) /\ (frame ∉ replacer_ b1)
                /\ NoDup (free_list_ b1) /\ NoDup (replacer_ b1)
                /\ (forall f, f ∈ free_list_ b1 -> f ∈ free_list_ b)
                /\ (forall f, f ∈ replacer_ b1 -> f ∈ replacer_ b)
                /\ (forall f, f <> frame -> f ∈ free_list_ b -> f ∈ free_list_ b1)
                /\ (forall f, f <> frame -> f ∈ replacer_ b -> f ∈ replacer_ b1)).
  { destruct Hacq as [(Hfl & Hr & _) | (Hfl & Hfl1 & Hr & _)].
    - pose proof (inv_free_nodup b I) as Hnd. rewrite Hfl in Hnd.
      apply NoDup_app in Hnd as (Hnd1 & Hdisj & _).
      destruct (inv_free b I frame) as (Hlt & _ & Hnr & _); [rewrite Hfl; set_solver|].
      rewrite Hr, Hfl. repeat split; try done.
      + intros Hin. apply (Hdisj _ Hin). set_solver.
      + apply (inv_repl_nodup b I).
      + set_solver.
      + set_solver.
    - pose proof (inv_repl_nodup b I) as Hnd. rewrite Hr in Hnd.
      apply NoDup_app in Hnd as (Hnd1 & Hdisj & _).
      destruct (inv_repl b I frame) as (Hlt & _); [rewrite Hr; set_solver|].
      rewrite Hr, Hfl, Hfl1. repeat split; try done.
      + set_solver.
      + intros Hin. apply (Hdisj _ Hin). set_solver.
      + apply NoDup_nil_2.
      + set_solver.
      + set_solver. }
  destruct Hfr as (Hlt & Hnfl & Hnr & Hndf & Hndr & Hfsub & Hrsub & Hfkeep & Hrkeep).
  assert (Hlen : (frame < length (pages_ b))%nat) by (by rewrite (inv_len b I)).
  assert (Hpin_id : Pin frame (replacer_ b1) = replacer_ b1).
  { unfold Pin. by destruct (decide (frame ∈ replacer_ b1)). }
  rewrite Hpin_id in Erp.
  assert (Hat : page_at frame b' = pg') by (by apply (page_at_insert_eq b)).
  assert (Hne : forall g, g <> frame -> page_at g b' = page_at g b).
  { intros g Hg. by apply (page_at_insert_ne b b' frame g pg'). }
  split.
  - rewrite Epg, length_insert, Eps. apply (inv_len b I).
  - intros p f. rewrite Ept, Eps. intros Hl.
    apply lookup_insert_Some in Hl as [[<- <-] | [Hp Hl]]; [by rewrite Hat|].
    apply lookup_delete_Some in Hl as [Hold Hl].
    destruct (inv_table b I p f Hl) as [Hf Hid]. split; [done|].
    rewrite Hne; [done|]. intros ->. done.
  - by rewrite Efl.
  - intros f. rewrite Efl, Erp, Eps, Ept. intros Hin.
    destruct (inv_free b I f (Hfsub f Hin)) as (Hf & Hh & Hr & Ht).
    assert (f <> frame) by (by intros ->).
    rewrite Hne by done. repeat split; try done; try apply Hh.
    + intros Hin'. by apply Hr, Hrsub.
    + intros p Hl. apply lookup_insert_Some in Hl as [[_ <-] | [_ Hl]]; [done|].
      apply lookup_delete_Some in Hl as [_ Hl]. by apply (Ht p).
  - by rewrite Erp.
  - intros f. rewrite Erp, Eps. intros Hin.
    destruct (inv_repl b I f (Hrsub f Hin)) as (Hf & Hz).
    assert (f <> frame) by (by intros ->). by rewrite Hne.
  - intros f. destruct (decide (f = frame)) as [->|Hf].
    + rewrite Hat. lia.
    + rewrite Hne by done. apply (inv_pin b I).
  - intros f. rewrite Eps, Efl, Erp. intros Hf.
    destruct (decide (f = frame)) as [->|Hfn].
    + right. right. rewrite Hat. lia.
    + rewrite Hne by done.
      destruct (inv_part b I f Hf) as [H|[H|H]]; [left|right;left|right;right]; auto.
Qed.

(** Changing the metadata of one frame (not its page id). *)
Lemma upd_frame_inv b f pg' b' :
  bpm_inv b -> (f < pool_size_ b)%nat ->
  page_id_ pg' = page_id_ (page_at f b) ->
  0 <= pin_count_ pg' ->
  (f ∈ free_list_ b -> holds_no_page pg') ->
  NoDup (replacer_ b') ->
  (forall g, g <> f -> g ∈ replacer_ b' <-> g ∈ replacer_ b) ->
  (f ∈ replacer_ b' -> pin_count_ pg' = 0 /\ (f ∉ free_list_ b)) ->
  (f ∈ free_list_ b \/ f ∈ replacer_ b' \/ pin_count_ pg' > 0) ->
  pool_size_ b' = pool_size_ b ->
  pages_ b' = <[f := pg']> (pages_ b) ->
  page_table_ b' = page_table_ b ->
  free_list_ b' = free_list_ b ->
  bpm_inv b'.
Proof.
  intros I Hlt Hid Hpin Hfree Hnd Hrne Hrf Hpart Eps Epg Ept Efl.
  assert (Hlen : (f < length (pages_ b))%nat) by (by rewrite (inv_len b I)).
  assert (Hat : page_at f b' = pg') by (by apply (page_at_insert_eq b)).
  assert (Hne : forall g, g <> f -> page_at g b' = page_at g b).
  { intros g Hg. apply (page_at_insert_ne b b' f g pg'); [done|]. by intros ->. }
  split.
  - rewrite Epg, length_insert, Eps. apply (inv_len b I).
  - intros p g. rewrite Ept, Eps. intros Hl.
    destruct (inv_table b I p g Hl) as [Hg Hpid]. split; [done|].
    destruct (decide (g = f)) as [->|Hgf]; [by rewrite Hat, Hid | by rewrite Hne].
  - rewrite Efl. apply (inv_free_nodup b I).
  - intros g. rewrite Efl, Eps, Ept. intros Hin.
    destruct (inv_free b I g Hin) as (Hg & Hh & Hr & Ht).
    destruct (decide (g = f)) as [->|Hgf].
    + rewrite Hat. repeat split; try done; try (by apply Hfree).
      intros Hin'. by apply Hrf in Hin' as [_ ?].
    + rewrite Hne by done. repeat split; try done; try apply Hh.
      intros Hin'. by apply Hr, Hrne.
  - done.
  - intros g. rewrite Eps. intros Hin.
    destruct (decide (g = f)) as [->|Hgf].
    + rewrite Hat. split; [done|]. by apply Hrf.
    + rewrite Hne by done. by apply (inv_repl b I), Hrne.
  - intros g. destruct (decide (g = f)) as [->|Hgf]; [by rewrite Hat|].
    rewrite Hne by done. apply (inv_pin b I).
  - intros g. rewrite Eps, Efl. intros Hg.
    destruct (decide (g = f)) as [->|Hgf]; [by rewrite Hat|].
    rewrite Hne by done.
    destruct (inv_part b I g Hg) as [H|[H|H]]; [left|right;left|right;right]; auto.
    by apply Hrne.
Qed.

End pool_facts.

Section pool_invariant.
Import LRUReplacer.

Lemma erase_resident_fields frame b :
  pool_size_ (erase_resident frame b) = pool_size_ b /\
  pages_ (erase_resident frame b) = pages_ b /\
  page_table_ (erase_resident frame b) = delete (page_id_ (page_at frame b)) (page_table_ b) /\
  free_list_ (erase_resident frame b) = free_list_ b /\
  replacer_ (erase_resident frame b) = replacer_ b /\
  disk_manager_ (erase_resident frame b) = disk_manager_ b.
Proof.
  unfold erase_resident.
  destruct (page_table_ b !! page_id_ (page_at frame b)) eqn:E; cbn; repeat split.
  by rewrite delete_id.
Qed.

Lemma page_at_out_of_range f b :
  (length (pages_ b) <= f)%nat -> page_at f b = blank_page.
Proof.
  intros H. unfold page_at. rewrite list_lookup_total_alt.
  by rewrite (lookup_ge_None_2 _ _ H).
Qed.

Lemma new_inv n dm : bpm_inv (new_BufferPoolManager n dm).
Proof.
  assert (Hat : forall f, page_at f (new_BufferPoolManager n dm) = blank_page).
  { intros f. destruct (decide (f < n)%nat).
    - unfold page_at. cbn. by apply lookup_total_replicate_2.
    - apply page_at_out_of_range. cbn. rewrite length_replicate. lia. }
  split; cbn [pool_size_ pages_ page_table_ free_list_ replacer_ new_BufferPoolManager].
  - apply length_replicate.
  - intros p f Hl. by rewrite lookup_empty in Hl.
  - apply NoDup_seq.
  - intros f Hin. apply elem_of_seq in Hin. rewrite Hat. repeat split.
    + lia.
    + apply not_elem_of_nil.
    + intros p Hl. by rewrite lookup_empty in Hl.
  - apply NoDup_nil_2.
  - intros f Hin. by apply not_elem_of_nil in Hin.
  - intros f. rewrite Hat. done.
  - intros f Hf. left. apply elem_of_seq. lia.
Qed.

Lemma FetchPageImpl_inv p b : bpm_inv b -> bpm_inv (FetchPageImpl p b).2.
Proof.
  intros I. unfold FetchPageImpl.
  destruct (page_table_ b !! p) as [f|] eqn:Hpt.
  - destruct (inv_table b I p f Hpt) as [Hf Hid]. cbn [snd].
    pose proof (inv_pin b I f) as Hpin.
    pose proof (inv_repl_nodup b I) as Hnd.
    set (pg := page_at f b) in *.
    apply (upd_frame_inv b f (mkPage (data_ pg) (page_id_ pg) (pin_count_ pg + 1) (is_dirty_ pg)));
      cbn; try done.
    + lia.
    + intros Hin. destruct (inv_free b I f Hin) as (_ & _ & _ & Hn). by destruct (Hn p).
    + by apply Pin_NoDup.
    + intros g Hg. rewrite elem_of_Pin by done. naive_solver.
    + rewrite elem_of_Pin by done. naive_solver.
    + right. right. lia.
  - destruct (find_replacement b) as [[frame b1]|] eqn:Hfr; [|done].
    pose proof (find_replacement_Some _ _ _ Hfr) as Hacq.
    destruct (ReadPage p _) as [bytes dm] eqn:Hrd. cbn [snd].
    destruct (erase_resident_fields frame b1) as (E1 & E2 & E3 & E4 & E5 & E6).
    pose proof Hacq as (A1 & A2 & A3 & A4).
    apply (install_inv b b1 frame (mkPage bytes p 1 false)); cbn; try done.
    + by rewrite E1.
    + by rewrite E2, A2.
    + rewrite E3, A3. unfold page_at. by rewrite A2.
    + by rewrite E5.
Qed.

Lemma NewPageImpl_inv b : bpm_inv b -> bpm_inv (NewPageImpl b).2.
Proof.
  intros I. unfold NewPageImpl.
  destruct (find_replacement b) as [[frame b1]|] eqn:Hfr; [|done].
  pose proof (find_replacement_Some _ _ _ Hfr) as Hacq.
  destruct (AllocatePage _) as [newPID dm] eqn:Hal. cbn [snd].
  destruct (erase_resident_fields frame (set_disk dm b1)) as (E1 & E2 & E3 & E4 & E5 & E6).
  pose proof Hacq as (A1 & A2 & A3 & A4).
  apply (install_inv b b1 frame (mkPage ZeroPage newPID 1 false)); cbn; try done.
  - by rewrite E1.
  - by rewrite E2, <- A2.
  - rewrite E3. cbn. rewrite A3. unfold page_at. cbn. by rewrite A2.
  - by rewrite E5.
Qed.

Lemma UnpinPageImpl_inv p d b : bpm_inv b -> bpm_inv (UnpinPageImpl p d b).2.
Proof.
  intros I. unfold UnpinPageImpl.
  destruct (page_table_ b !! p) as [f|] eqn:Hpt; [|done].
  destruct (inv_table b I p f Hpt) as [Hf Hid]. cbn [snd].
  assert (Hlen : (f < length (pages_ b))%nat) by (by rewrite (inv_len b I)).
  assert (Hnfree : f ∉ free_list_ b).
  { intros Hin. destruct (inv_free b I f Hin) as (_ & _ & _ & Hn). by destruct (Hn p). }
  pose proof (inv_pin b I f) as Hpin.
  pose proof (inv_repl_nodup b I) as Hnd.
  set (pg := page_at f b) in *.
  destruct (decide (pin_count_ pg > 0)) as [Hpos|Hnpos].
  - set (b' := upd_page f _ b).
    assert (Hat' : page_at f b' =
              mkPage (data_ pg) (page_id_ pg) (pin_count_ pg - 1) (is_dirty_ pg)).
    { by apply (page_at_insert_eq b). }
    rewrite Hat'. cbn [pin_count_].
    destruct (decide (pin_count_ pg - 1 = 0)) as [Hz|Hnz].
    + apply (upd_frame_inv b f
               (mkPage (data_ pg) (page_id_ pg) (pin_count_ pg - 1) (is_dirty_ pg || d)));
        cbn; try done.
      * lia.
      * by apply Unpin_NoDup.
      * intros g Hg. rewrite elem_of_Unpin. naive_solver.
      * right. left. apply elem_of_Unpin. by left.
      * change (page_at f (set_replacer _ b')) with (page_at f b').
        rewrite Hat'. cbn. by rewrite list_insert_insert_eq.
    + apply (upd_frame_inv b f
               (mkPage (data_ pg) (page_id_ pg) (pin_count_ pg - 1) (is_dirty_ pg || d)));
        cbn; try done.
      * lia.
      * intros Hin. destruct (inv_repl b I f Hin) as [_ Hz]. fold pg in Hz. lia.
      * right. right. lia.
      * fold b'. rewrite Hat'. cbn. by rewrite list_insert_insert_eq.
  - apply (upd_frame_inv b f
               (mkPage (data_ pg) (page_id_ pg) (pin_count_ pg) (is_dirty_ pg || d)));
        cbn; try done.
    + intros Hin. destruct (inv_repl b I f Hin) as [_ Hz]. done.
    + destruct (inv_part b I f Hf) as [H|[H|H]]; [done | by right; left | by right; right].
Qed.

Lemma upd_same_meta_inv b f g :
  bpm_inv b ->
  (forall pg, page_id_ (g pg) = page_id_ pg /\ pin_count_ (g pg) = pin_count_ pg) ->
  (f ∈ free_list_ b -> is_dirty_ (g (page_at f b)) = false) ->
  bpm_inv (upd_page f g b).
Proof.
  intros I Hg Hd. destruct (Hg (page_at f b)) as [Hid Hpc].
  destruct (decide (f < pool_size_ b)%nat) as [Hf|Hf].
  - apply (upd_frame_inv b f (g (page_at f b))); cbn; try done.
    + rewrite Hpc. apply (inv_pin b I).
    + intros Hin. destruct (inv_free b I f Hin) as (_ & (H1 & H2 & H3) & _).
      repeat split; [by rewrite Hid | by apply Hd | by rewrite Hpc].
    + apply (inv_repl_nodup b I).
    + intros Hin. rewrite Hpc. destruct (inv_repl b I f Hin) as [_ Hz]. split; [done|].
      intros Hfr. by destruct (inv_free b I f Hfr) as (_ & _ & Hn & _).
    + rewrite Hpc. by apply (inv_part b I).
  - replace (upd_page f g b) with b; [done|].
    unfold upd_page. rewrite list_insert_ge by (rewrite (inv_len b I); lia).
    by destruct b.
Qed.

Lemma FlushPageImpl_inv p b : bpm_inv b -> bpm_inv (FlushPageImpl p b).2.
Proof.
  intros I. unfold FlushPageImpl.
  destruct (page_table_ b !! p) as [f|] eqn:Hpt; [|done].
  destruct (decide (p = INVALID_PAGE_ID)); [done|]. cbn [snd].
  apply upd_same_meta_inv; [split; apply I | done | done].
Qed.

Lemma flush_from_inv n : forall fid b, bpm_inv b -> bpm_inv (flush_from fid n b).
Proof.
  induction n as [|n IH]; intros fid b I; [done|].
  cbn. by apply IH, FlushPageImpl_inv.
Qed.

Lemma DeletePageImpl_inv p b : bpm_inv b -> bpm_inv (DeletePageImpl p b).2.
Proof.
  intros I. unfold DeletePageImpl.
  destruct (decide (p = INVALID_PAGE_ID)); [done|].
  destruct (page_table_ b !! p) as [f|] eqn:Hpt; [|done].
  destruct (decide (pin_count_ (page_at f b) > 0)) as [Hpos|Hz]; [done|]. cbn [snd].
  destruct (inv_table b I p f Hpt) as [Hf Hid].
  assert (Hlen : (f < length (pages_ b))%nat) by (by rewrite (inv_len b I)).
  assert (Hnfree : f ∉ free_list_ b).
  { intros Hin. destruct (inv_free b I f Hin) as (_ & _ & _ & Hn). by destruct (Hn p). }
  pose proof (inv_repl_nodup b I) as Hnd.
  assert (Hinj : forall q, q <> p -> page_table_ b !! q <> Some f).
  { intros q Hq Hl. destruct (inv_table b I q f Hl) as [_ Hid']. congruence. }
  set (b' := set_free_list _ _).
  assert (Hat : page_at f b' = mkPage ZeroPage INVALID_PAGE_ID 0 false).
  { unfold page_at, b'. cbn. by rewrite list_lookup_total_insert_eq. }
  assert (Hne : forall g, g <> f -> page_at g b' = page_at g b).
  { intros g Hg. unfold page_at, b'. cbn. by rewrite list_lookup_total_insert_ne. }
  split; cbn [b' pool_size_ pages_ page_table_ free_list_ replacer_ set_free_list upd_page
              set_pages set_replacer set_disk set_page_table].
  - rewrite length_insert. apply (inv_len b I).
  - intros q g Hl. apply lookup_delete_Some in Hl as [Hq Hl].
    destruct (inv_table b I q g Hl) as [Hg Hgid]. split; [done|].
    fold b'. rewrite Hne; [done|]. intros ->. by apply (Hinj q).
  - apply NoDup_app. repeat split.
    + apply (inv_free_nodup b I).
    + intros g Hg Hg'. apply list_elem_of_singleton in Hg'. by subst.
    + apply NoDup_singleton.
  - intros g Hg. fold b'. apply elem_of_app in Hg as [Hg|Hg].
    + destruct (inv_free b I g Hg) as (Hlt & Hh & Hr & Ht).
      assert (g <> f) by (by intros ->). rewrite Hne by done. repeat split; try done; try apply Hh.
      * rewrite elem_of_Pin by done. naive_solver.
      * intros q Hl. apply lookup_delete_Some in Hl as [_ Hl]. by apply (Ht q).
    + apply list_elem_of_singleton in Hg as ->. rewrite Hat. repeat split; try done.
      * rewrite elem_of_Pin by done. naive_solver.
      * intros q Hl. apply lookup_delete_Some in Hl as [Hq Hl]. by apply (Hinj q).
  - by apply Pin_NoDup.
  - intros g Hg. fold b'. apply elem_of_Pin in Hg as [Hg Hgf]; [|done].
    rewrite Hne by done. by apply (inv_repl b I).
  - intros g. fold b'. destruct (decide (g = f)) as [->|Hgf]; [by rewrite Hat|].
    rewrite Hne by done. apply (inv_pin b I).
  - intros g Hg. fold b'. destruct (decide (g = f)) as [->|Hgf].
    + left. apply elem_of_app. right. by apply list_elem_of_singleton.
    + rewrite Hne by done.
      destruct (inv_part b I g Hg) as [H|[H|H]].
      * left. apply elem_of_app. by left.
      * right. left. rewrite elem_of_Pin by done. done.
      * by right; right.
Qed.

Lemma run_op_inv o b : bpm_inv b -> bpm_inv (run_op o b).
Proof.
  intros I. destruct o; cbn.
  - by apply FetchPageImpl_inv.
  - by apply UnpinPageImpl_inv.
  - by apply FlushPageImpl_inv.
  - by apply NewPageImpl_inv.
  - by apply DeletePageImpl_inv.
  - by apply flush_from_inv.
  - apply upd_same_meta_inv; [done | done |].
    intros Hin. cbn. by destruct (inv_free b I f Hin) as (_ & (_ & ? & _) & _).
Qed.

Lemma reachable_inv b : reachable b -> bpm_inv b.
Proof. induction 1; [apply new_inv | by apply run_op_inv]. Qed.

End pool_invariant.

Section pool_disk_facts.
Import LRUReplacer.

Lemma run_ops_reachable os : forall b, reachable b -> reachable (run_ops os b).
Proof.
  induction os as [|o os IH]; intros b Hb; [done|].
  cbn. apply IH. by constructor.
Qed.

Lemma exhausted_iff_all_pinned b :
  bpm_inv b ->
  (free_list_ b = [] /\ (Victim (replacer_ b)).1 = None) <-> all_pinned b.
Proof.
  intros I. rewrite Victim_None. split.
  - intros [Hfl Hr] f Hf.
    destruct (inv_part b I f Hf) as [H|[H|H]]; [|  |done].
    + rewrite Hfl in H. by apply not_elem_of_nil in H.
    + rewrite Hr in H. by apply not_elem_of_nil in H.
  - intros Hall. split.
    + destruct (free_list_ b) as [|f fl] eqn:E; [done|].
      destruct (inv_free b I f) as (Hf & (_ & _ & Hz) & _); [rewrite E; by left|].
      specialize (Hall f Hf). lia.
    + destruct (replacer_ b) as [|f fl] eqn:E; [done|].
      destruct (inv_repl b I f) as (Hf & Hz); [rewrite E; by left|].
      specialize (Hall f Hf). lia.
Qed.

Lemma find_replacement_writes b frame b1 :
  find_replacement b = Some (frame, b1) ->
  (free_list_ b <> [] /\ frame ∈ free_list_ b /\ disk_manager_ b1 = disk_manager_ b)
  \/ (free_list_ b = [] /\ frame ∈ replacer_ b /\
      writes (disk_manager_ b1) =
        (writes (disk_manager_ b) + (if is_dirty_ (page_at frame b) then 1 else 0))%nat).
Proof.
  intros (_ & _ & _ & [(Hfl & _ & Hd) | (Hfl & _ & Hr & Hd)])%find_replacement_Some.
  - left. rewrite Hfl. repeat split; [ | apply elem_of_app; right; by left | done].
    intros E. by apply app_eq_nil in E as [_ ?].
  - right. rewrite Hr, Hd. repeat split; [done | apply elem_of_app; right; by left |].
    unfold writes. destruct (is_dirty_ (page_at frame b)); cbn; lia.
Qed.

Lemma FetchPageImpl_writes p b frame b1 :
  page_table_ b !! p = None -> find_replacement b = Some (frame, b1) ->
  writes (disk_manager_ (FetchPageImpl p b).2) = writes (disk_manager_ b1).
Proof.
  intros Hpt Hfr. unfold FetchPageImpl. rewrite Hpt, Hfr.
  destruct (erase_resident_fields frame b1) as (_ & _ & _ & _ & _ & E6).
  cbn. by rewrite E6.
Qed.

Lemma NewPageImpl_writes b frame b1 :
  find_replacement b = Some (frame, b1) ->
  writes (disk_manager_ (NewPageImpl b).2) = writes (disk_manager_ b1).
Proof.
  intros Hfr. unfold NewPageImpl. rewrite Hfr.
  destruct (erase_resident_fields frame
              (set_disk (AllocatePage (disk_manager_ b1)).2 b1)) as (_ & _ & _ & _ & _ & E6).
  cbn in *. by rewrite E6.
Qed.

End pool_disk_facts.

(** C5. [FetchPage] of a non-resident page and [NewPage] return none exactly
    when the free list is empty and [replacer.Victim] yields no frame (in a
    reachable state: exactly when every frame is pinned); when they return
    none the pool (page table, frames, free list, and also replacer and disk)
    is left unchanged. *)
Theorem capacity_exhausted (b : BufferPoolManager) :
  (forall p, page_table_ b !! p = None ->
     ((FetchPageImpl p b).1 = None <->
        free_list_ b = [] /\ (LRUReplacer.Victim (replacer_ b)).1 = None)
     /\ ((FetchPageImpl p b).1 = None -> (FetchPageImpl p b).2 = b))
  /\ (((NewPageImpl b).1.1 = None <->
        free_list_ b = [] /\ (LRUReplacer.Victim (replacer_ b)).1 = None)
      /\ ((NewPageImpl b).1.1 = None -> (NewPageImpl b).2 = b))
  /\ (reachable b ->
        (free_list_ b = [] /\ (LRUReplacer.Victim (replacer_ b)).1 = None) <-> all_pinned b).
Proof.
  split; [|split].
  - intros p Hpt. rewrite <- find_replacement_None. unfold FetchPageImpl. rewrite Hpt.
    destruct (find_replacement b) as [[frame b1]|]; [|done].
    destruct (ReadPage p _). cbn. split; [split|]; done.
  - rewrite <- find_replacement_None. unfold NewPageImpl.
    destruct (find_replacement b) as [[frame b1]|]; [|done].
    destruct (AllocatePage _). cbn. split; [split|]; done.
  - intros Hr. by apply exhausted_iff_all_pinned, reachable_inv.
Qed.

Lemma capacity_exhausted_witness :
  page_table_ pool_full !! 7 = None /\ reachable pool_full /\
  (FetchPageImpl 7 pool_full).1 = None /\ (FetchPageImpl 7 pool_full).2 = pool_full /\
  (NewPageImpl pool_full).1.1 = None /\ all_pinned pool_full.
Proof.
  assert (Hpt : page_table_ pool_full !! 7 = None) by (vm_compute; reflexivity).
  assert (Hr : reachable pool_full) by (apply run_ops_reachable; constructor).
  assert (Hex : free_list_ pool_full = [] /\
                (LRUReplacer.Victim (replacer_ pool_full)).1 = None)
    by (split; vm_compute; reflexivity).
  destruct (capacity_exhausted pool_full) as (Hfetch & Hnew & Hpin).
  destruct (Hfetch 7 Hpt) as [Hiff Hsame].
  pose proof (proj2 Hiff Hex) as Hnone.
  exact (conj Hpt (conj Hr (conj Hnone (conj (Hsame Hnone)
           (conj (proj2 (proj1 Hnew) Hex) (proj1 (Hpin Hr) Hex)))))).
Defined.

Section page_updates.

Lemma page_at_upd_eq f g b :
  (f < length (pages_ b))%nat -> page_at f (upd_page f g b) = g (page_at f b).
Proof. intros H. unfold page_at, upd_page. cbn. by apply list_lookup_total_insert_eq. Qed.

Lemma page_at_upd_ne f f' g b :
  f <> f' -> page_at f' (upd_page f g b) = page_at f' b.
Proof. intros H. unfold page_at, upd_page. cbn. by apply list_lookup_total_insert_ne. Qed.

Lemma length_pages_upd f g b : length (pages_ (upd_page f g b)) = length (pages_ b).
Proof. unfold upd_page. cbn. apply length_insert. Qed.

Lemma page_at_set_replacer r b f : page_at f (set_replacer r b) = page_at f b.
Proof. done. Qed.

End page_updates.

Lemma UnpinPageImpl_spec (p : page_id_t) (d : bool) (b : BufferPoolManager) :
  (page_table_ b !! p = None -> UnpinPageImpl p d b = (false, b)) /\
  (forall f, page_table_ b !! p = Some f -> (f < length (pages_ b))%nat ->
     let pg := page_at f b in
     let b' := (UnpinPageImpl p d b).2 in
     (UnpinPageImpl p d b).1 = true /\
     page_at f b' =
       mkPage (data_ pg) (page_id_ pg)
              (if decide (pin_count_ pg > 0) then pin_count_ pg - 1 else pin_count_ pg)
              (is_dirty_ pg || d) /\
     replacer_ b' =
       (if decide (pin_count_ pg > 0 /\ pin_count_ pg - 1 = 0)
        then LRUReplacer.Unpin f (replacer_ b) else replacer_ b) /\
     (is_dirty_ pg = true -> is_dirty_ (page_at f b') = true) /\
     (forall g, g <> f -> page_at g b' = page_at g b) /\
     page_table_ b' = page_table_ b /\ free_list_ b' = free_list_ b /\
     disk_manager_ b' = disk_manager_ b).
Proof.
  split.
  - intros Hpt. unfold UnpinPageImpl. by rewrite Hpt.
  - intros f Hpt Hlen pg b'. subst b'. unfold UnpinPageImpl. rewrite Hpt. cbn [fst snd].
    fold pg.
    destruct (decide (pin_count_ pg > 0)) as [Hpos|Hnpos].
    + rewrite (page_at_upd_eq f _ b) by done. fold pg. cbn [pin_count_].
      destruct (decide (pin_count_ pg - 1 = 0)) as [Hz|Hnz].
      * rewrite decide_True by done.
        split; [done|]. split; [|split; [done|split; [|split; [|done]]]].
        -- rewrite page_at_upd_eq by (cbn; by rewrite length_insert).
           rewrite page_at_set_replacer, page_at_upd_eq by done. done.
        -- intros Hd. rewrite page_at_upd_eq by (cbn; by rewrite length_insert).
           rewrite page_at_set_replacer, page_at_upd_eq by done. cbn. fold pg. by rewrite Hd.
        -- intros g Hg. rewrite page_at_upd_ne by done.
           by rewrite page_at_set_replacer, page_at_upd_ne.
      * rewrite decide_False by (intros [_ ?]; done).
        split; [done|]. split; [|split; [done|split; [|split; [|done]]]].
        -- rewrite page_at_upd_eq by (by rewrite length_pages_upd).
           rewrite page_at_upd_eq by done. done.
        -- intros Hd. rewrite page_at_upd_eq by (by rewrite length_pages_upd).
           rewrite page_at_upd_eq by done. cbn. fold pg. by rewrite Hd.
        -- intros g Hg. by rewrite !page_at_upd_ne.
    + rewrite decide_False by (intros [? _]; done).
      split; [done|]. split; [|split; [done|split; [|split; [|done]]]].
      * by rewrite page_at_upd_eq.
      * intros Hd. rewrite page_at_upd_eq by done. cbn. fold pg. by rewrite Hd.
      * intros g Hg. by rewrite page_at_upd_ne.
Qed.

(** C7. [UnpinPage(p, d)] returns false and changes nothing when [p] is not in
    the page table.  Otherwise it returns true, decrements the frame's pin
    count if it was positive, calls [replacer.Unpin] on the frame exactly when
    the count thereby reaches 0, and ORs [d] into the dirty bit, so a dirty
    bit that is set stays set; nothing else changes. *)
Theorem UnpinPage_behaviour (p : page_id_t) (d : bool) (b : BufferPoolManager) :
  (page_table_ b !! p = None -> UnpinPageImpl p d b = (false, b)) /\
  (forall f, page_table_ b !! p = Some f -> (f < length (pages_ b))%nat ->
     let pg := page_at f b in
     let b' := (UnpinPageImpl p d b).2 in
     (UnpinPageImpl p d b).1 = true /\
     page_at f b' =
       mkPage (data_ pg) (page_id_ pg)
              (if decide (pin_count_ pg > 0) then pin_count_ pg - 1 else pin_count_ pg)
              (is_dirty_ pg || d) /\
     replacer_ b' =
       (if decide (pin_count_ pg > 0 /\ pin_count_ pg - 1 = 0)
        then LRUReplacer.Unpin f (replacer_ b) else replacer_ b) /\
     (is_dirty_ pg = true -> is_dirty_ (page_at f b') = true) /\
     (forall g, g <> f -> page_at g b' = page_at g b) /\
     page_table_ b' = page_table_ b /\ free_list_ b' = free_list_ b /\
     disk_manager_ b' = disk_manager_ b).
Proof. apply UnpinPageImpl_spec. Qed.

Lemma UnpinPage_behaviour_witness :
  page_table_ pool_mixed !! 9 = None /\
  UnpinPageImpl 9 true pool_mixed = (false, pool_mixed) /\
  page_table_ pool_mixed !! 0 = Some 2%nat /\ (2 < length (pages_ pool_mixed))%nat /\
  (UnpinPageImpl 0 false pool_mixed).1 = true /\
  is_dirty_ (page_at 2 (UnpinPageImpl 0 false pool_mixed).2) = true.
Proof.
  assert (H9 : page_table_ pool_mixed !! 9 = None) by (vm_compute; reflexivity).
  assert (H0 : page_table_ pool_mixed !! 0 = Some 2%nat) by (vm_compute; reflexivity).
  assert (Hl : (2 < length (pages_ pool_mixed))%nat) by (vm_compute; lia).
  assert (Hd : is_dirty_ (page_at 2 pool_mixed) = true) by (vm_compute; reflexivity).
  destruct (UnpinPage_behaviour 9 true pool_mixed) as [Hmiss _].
  destruct (UnpinPage_behaviour 0 false pool_mixed) as [_ Hhit].
  destruct (Hhit 2%nat H0 Hl) as (Hret & _ & _ & Hsticky & _).
  exact (conj H9 (conj (Hmiss H9) (conj H0 (conj Hl (conj Hret (Hsticky Hd)))))).
Defined.

(** Scenario 6 of section 8: with four frames, four pages fetched and kept
    pinned, a fifth [FetchPage] returns none; after unpinning page 2 the fifth
    fetch succeeds in the frame page 2 occupied. *)
Example scenario6_pool_full :
  let b := run_ops [OpFetchPage 1; OpFetchPage 2; OpFetchPage 3; OpFetchPage 4]
                   (new_BufferPoolManager 4 empty_disk) in
  (FetchPageImpl 5 b).1 = None /\
  page_table_ b !! 2 = Some 2%nat /\
  (FetchPageImpl 5 (UnpinPageImpl 2 false b).2).1 = Some 2%nat.
Proof. repeat apply conj; vm_compute; reflexivity. Qed.

(** C8. [DeletePage(p)] returns true and changes nothing when [p] is INVALID
    or not in the page table; for a resident [p] whose frame is pinned it
    returns false and changes nothing; otherwise it writes the frame back if
    it is dirty, deallocates [p], removes [p] from the page table and the
    frame from the replacer, resets the frame, pushes it onto the free list
    and returns true. *)
Theorem DeletePage_behaviour (p : page_id_t) (b : BufferPoolManager) :
  (p = INVALID_PAGE_ID \/ page_table_ b !! p = None -> DeletePageImpl p b = (true, b)) /\
  (forall f, p <> INVALID_PAGE_ID -> page_table_ b !! p = Some f ->
     (pin_count_ (page_at f b) > 0 -> DeletePageImpl p b = (false, b)) /\
     (~ pin_count_ (page_at f b) > 0 -> (f < length (pages_ b))%nat ->
        let pg := page_at f b in
        let b' := (DeletePageImpl p b).2 in
        (DeletePageImpl p b).1 = true /\
        disk_log (disk_manager_ b') =
          EvDeallocatePage p ::
          (if is_dirty_ pg then [EvWritePage (page_id_ pg) (data_ pg)] else [])
          ++ disk_log (disk_manager_ b) /\
        page_table_ b' = delete p (page_table_ b) /\
        replacer_ b' = LRUReplacer.Pin f (replacer_ b) /\
        (NoDup (replacer_ b) -> f ∉ replacer_ b') /\
        page_at f b' = blank_page /\
        free_list_ b' = free_list_ b ++ [f] /\
        (forall g, g <> f -> page_at g b' = page_at g b) /\
        pool_size_ b' = pool_size_ b)).
Proof.
  split.
  - intros H. unfold DeletePageImpl. destruct (decide (p = INVALID_PAGE_ID)); [done|].
    destruct H as [?|H]; [done | by rewrite H].
  - intros f Hp Hpt. unfold DeletePageImpl. rewrite decide_False by done. rewrite Hpt.
    split.
    + intros Hpos. by rewrite decide_True.
    + intros Hz Hlen. cbv zeta. rewrite decide_False by done. cbn [fst snd].
      set (pg := page_at f b).
      split; [done|]. split; [by destruct (is_dirty_ pg)|]. split; [done|].
      split; [done|]. split; [|split; [|split; [done|split; [|done]]]].
      * intros Hnd. cbn. rewrite elem_of_Pin by done. naive_solver.
      * unfold page_at. cbn. by rewrite list_lookup_total_insert_eq.
      * intros g Hg. unfold page_at. cbn. by rewrite list_lookup_total_insert_ne.
Qed.

Lemma DeletePage_behaviour_witness :
  DeletePageImpl INVALID_PAGE_ID pool_mixed = (true, pool_mixed) /\
  DeletePageImpl 1 pool_mixed = (false, pool_mixed) /\
  (DeletePageImpl 0 pool_mixed).1 = true /\
  free_list_ (DeletePageImpl 0 pool_mixed).2 = [0%nat; 2%nat] /\
  page_at 2 (DeletePageImpl 0 pool_mixed).2 = blank_page /\
  2%nat ∉ replacer_ (DeletePageImpl 0 pool_mixed).2.
Proof.
  assert (H1 : page_table_ pool_mixed !! 1 = Some 1%nat) by (vm_compute; reflexivity).
  assert (H0 : page_table_ pool_mixed !! 0 = Some 2%nat) by (vm_compute; reflexivity).
  assert (Hpin1 : pin_count_ (page_at 1 pool_mixed) > 0) by (vm_compute; reflexivity).
  assert (Hpin0 : ~ pin_count_ (page_at 2 pool_mixed) > 0) by (vm_compute; discriminate).
  assert (Hl : (2 < length (pages_ pool_mixed))%nat) by (vm_compute; lia).
  assert (Hne1 : 1 <> INVALID_PAGE_ID) by discriminate.
  assert (Hne0 : 0 <> INVALID_PAGE_ID) by discriminate.
  assert (Hnd : NoDup (replacer_ pool_mixed))
    by (vm_compute; apply NoDup_cons; split; [apply not_elem_of_nil | apply NoDup_nil_2]).
  destruct (DeletePage_behaviour INVALID_PAGE_ID pool_mixed) as [Hinv _].
  destruct (DeletePage_behaviour 1 pool_mixed) as [_ Hp1].
  destruct (DeletePage_behaviour 0 pool_mixed) as [_ Hp0].
  destruct (Hp1 1%nat Hne1 H1) as [Hpinned _].
  destruct (Hp0 2%nat Hne0 H0) as [_ Hdel].
  destruct (Hdel Hpin0 Hl) as (Hret & _ & _ & _ & Hnr & Hblank & Hfl & _).
  exact (conj (Hinv (or_introl eq_refl)) (conj (Hpinned Hpin1)
          (conj Hret (conj Hfl (conj Hblank (Hnr Hnd)))))).
Defined.



(** C10. In every reachable state every frame on the free list holds no
    page (page id INVALID, not dirty, pin count 0); and [FetchPage] and
    [NewPage] write a page back only when the free list is empty and the frame
    taken from the replacer is dirty, never when the frame comes from the free
    list. *)
Theorem free_frames_hold_no_page (b : BufferPoolManager) (Hr : reachable b) :
  (forall f, f ∈ free_list_ b -> holds_no_page (page_at f b)) /\
  (forall p, writes (disk_manager_ (FetchPageImpl p b).2) <> writes (disk_manager_ b) ->
     free_list_ b = [] /\
     exists f, (LRUReplacer.Victim (replacer_ b)).1 = Some f /\ is_dirty_ (page_at f b) = true) /\
  (writes (disk_manager_ (NewPageImpl b).2) <> writes (disk_manager_ b) ->
     free_list_ b = [] /\
     exists f, (LRUReplacer.Victim (replacer_ b)).1 = Some f /\ is_dirty_ (page_at f b) = true) /\
  (free_list_ b <> [] ->
     (forall p, writes (disk_manager_ (FetchPageImpl p b).2) = writes (disk_manager_ b)) /\
     writes (disk_manager_ (NewPageImpl b).2) = writes (disk_manager_ b)).
Proof.
  pose proof (reachable_inv b Hr) as I.
  assert (Hcase : forall frame b1, find_replacement b = Some (frame, b1) ->
            writes (disk_manager_ b1) <> writes (disk_manager_ b) ->
            free_list_ b = [] /\
            exists f, (LRUReplacer.Victim (replacer_ b)).1 = Some f /\
                      is_dirty_ (page_at f b) = true).
  { intros frame b1 Hfr Hw.
    pose proof (find_replacement_Some _ _ _ Hfr) as (_ & _ & _ & Hacq).
    destruct Hacq as [(_ & _ & Hd) | (Hfl & _ & Hrp & Hd)]; [by rewrite Hd in Hw|].
    split; [done|]. exists frame. rewrite Hrp, Victim_snoc. split; [done|].
    rewrite Hd in Hw. by destruct (is_dirty_ (page_at frame b)). }
  assert (Hfetch : forall p,
            writes (disk_manager_ (FetchPageImpl p b).2) <> writes (disk_manager_ b) ->
            exists frame b1, find_replacement b = Some (frame, b1) /\
                             writes (disk_manager_ b1) <> writes (disk_manager_ b)).
  { intros p Hw. destruct (page_table_ b !! p) as [f|] eqn:Hpt.
    - unfold FetchPageImpl in Hw. rewrite Hpt in Hw. done.
    - destruct (find_replacement b) as [[frame b1]|] eqn:Hfr.
      + exists frame, b1. split; [done|]. by rewrite <- (FetchPageImpl_writes p b frame b1).
      + unfold FetchPageImpl in Hw. rewrite Hpt, Hfr in Hw. done. }
  assert (Hnew : writes (disk_manager_ (NewPageImpl b).2) <> writes (disk_manager_ b) ->
            exists frame b1, find_replacement b = Some (frame, b1) /\
                             writes (disk_manager_ b1) <> writes (disk_manager_ b)).
  { intros Hw. destruct (find_replacement b) as [[frame b1]|] eqn:Hfr.
    - exists frame, b1. split; [done|]. by rewrite <- (NewPageImpl_writes b frame b1).
    - unfold NewPageImpl in Hw. rewrite Hfr in Hw. done. }
  split; [|split; [|split]].
  - intros f Hin. by destruct (inv_free b I f Hin) as (_ & ? & _).
  - intros p Hw. destruct (Hfetch p Hw) as (frame & b1 & Hfr & Hw'). by eapply Hcase.
  - intros Hw. destruct (Hnew Hw) as (frame & b1 & Hfr & Hw'). by eapply Hcase.
  - intros Hne. split.
    + intros p.
      destruct (decide (writes (disk_manager_ (FetchPageImpl p b).2) = writes (disk_manager_ b)))
        as [|Hw]; [done|].
      destruct (Hfetch p Hw) as (frame & b1 & Hfr & Hw'). by destruct (Hcase _ _ Hfr Hw').
    + destruct (decide (writes (disk_manager_ (NewPageImpl b).2) = writes (disk_manager_ b)))
        as [|Hw]; [done|].
      destruct (Hnew Hw) as (frame & b1 & Hfr & Hw'). by destruct (Hcase _ _ Hfr Hw').
Qed.

Lemma free_frames_hold_no_page_witness :
  reachable pool_mixed /\ 0%nat ∈ free_list_ pool_mixed /\
  holds_no_page (page_at 0 pool_mixed) /\
  writes (disk_manager_ (NewPageImpl pool_mixed).2) = writes (disk_manager_ pool_mixed) /\
  reachable pool_dirty_victim /\
  writes (disk_manager_ (NewPageImpl pool_dirty_victim).2)
    <> writes (disk_manager_ pool_dirty_victim) /\
  free_list_ pool_dirty_victim = [].
Proof.
  assert (Hr : reachable pool_mixed) by (apply run_ops_reachable; constructor).
  assert (Hr' : reachable pool_dirty_victim) by (apply run_ops_reachable; constructor).
  assert (Hin : 0%nat ∈ free_list_ pool_mixed) by (vm_compute; by left).
  assert (Hne : free_list_ pool_mixed <> []) by (vm_compute; discriminate).
  assert (Hw : writes (disk_manager_ (NewPageImpl pool_dirty_victim).2)
               <> writes (disk_manager_ pool_dirty_victim)) by (vm_compute; discriminate).
  destruct (free_frames_hold_no_page pool_mixed Hr) as (Hblank & _ & _ & Hfree).
  destruct (free_frames_hold_no_page pool_dirty_victim Hr') as (_ & _ & Hwb & _).
  exact (conj Hr (conj Hin (conj (Hblank 0%nat Hin) (conj (proj2 (Hfree Hne))
          (conj Hr' (conj Hw (proj1 (Hwb Hw)))))))).
Defined.

(** * Properties of the B+ tree *)

(** Scenario 1 of section 8: after inserting 1..5 the first leaf has split into
    [1,2] and [3,4,5] under a new root with separator 3, and every key is
    found. *)
Example scenario1_first_split :
  exists t, run_tree_ops 20 (inserts (seqZ 1 5)) (scenario_tree 16 false) = Ok tt t /\
    page_entries 1 t = Some [(1, 1); (2, 2)] /\
    page_entries 2 t = Some [(3, 3); (4, 4); (5, 5)] /\
    children 3 t = Some [1; 2] /\ separators 3 t = Some [3] /\
    root_page_id_ t = 3 /\ header_root t = Some 3 /\
    (fun i => lookup_after 20 [] i t) <$> seqZ 1 5 = (fun i => inr (Some i)) <$> seqZ 1 5.
Proof.
  eexists. split; [vm_compute; reflexivity|].
  repeat apply conj; vm_compute; reflexivity.
Qed.

(** C1 (fails on the code).  P4 says a key that was inserted and not removed
    is found.  In a build without assertions, after inserting 1..15 and
    removing 1 the key 7 denotes [Some 7] but [GetValue(7)] answers false (so
    do 5, 6 and 8); in a build with assertions the 13th insert does not
    return: the split of the root aborts. *)
Theorem GetValue_loses_inserted_key :
  denote (inserts (seqZ 1 15) ++ [OpRemove 1]) !! 7 = Some 7 /\
  lookup_after 20 (inserts (seqZ 1 15) ++ [OpRemove 1]) 7 (scenario_tree 16 true) = inr None /\
  map (fun k => lookup_after 20 (inserts (seqZ 1 15) ++ [OpRemove 1]) k (scenario_tree 16 true))
      [5; 6; 8] = [inr None; inr None; inr None] /\
  lookup_after 20 (inserts (seqZ 1 12)) 7 (scenario_tree 16 false) = inr (Some 7) /\
  lookup_after 20 (inserts (seqZ 1 13)) 7 (scenario_tree 16 false) = inl AssertionFailed.
Proof. repeat apply conj; vm_compute; reflexivity. Qed.

(** C2 (as stated, fails on the code).  In scenario 3 the leftmost leaf does
    not borrow from its right sibling. *)
Lemma scenario3_does_not_redistribute :
  exists t, run_tree_ops 20 scenario3 (scenario_tree 16 false) = Ok tt t /\
            ~ borrowed_from_right_sibling t.
Proof.
  eexists. split; [vm_compute; reflexivity|].
  intros (H & _). vm_compute in H. discriminate H.
Qed.

(** C3 (fails on the code).  P7 says that removing all inserted keys leaves
    an empty tree.  Without assertions, inserting 1..15 and removing 1..15 in
    ascending order leaves root page 3 (recorded in the header page), with
    7 still found; removing in descending order does empty the tree.  With
    assertions the insertion of 1..15 aborts in the split of the root. *)
Theorem round_trip_leaves_tree_nonempty :
  root_after 20 (inserts (seqZ 1 15) ++ removes (seqZ 1 15)) (scenario_tree 16 true)
    = inr (3, Some 3) /\
  lookup_after 20 (inserts (seqZ 1 15) ++ removes (seqZ 1 15)) 7 (scenario_tree 16 true)
    = inr (Some 7) /\
  root_after 20 (inserts (seqZ 1 15) ++ removes (rev (seqZ 1 15))) (scenario_tree 16 true)
    = inr (INVALID_PAGE_ID, Some INVALID_PAGE_ID) /\
  root_after 20 (inserts (seqZ 1 15) ++ removes (seqZ 1 15)) (scenario_tree 16 false)
    = inl AssertionFailed.
Proof. repeat apply conj; vm_compute; reflexivity. Qed.

(** Without assertions the split of an internal page does what is said of
    it: after inserting 1..13 the old root (page 3, which held
    [max_size + 1 = 6] entries) keeps the lower 3 entries, the new page 8
    holds the upper 3, and the moved children 5, 6 and 7 have parent 8. *)
Example internal_split_without_assertions :
  exists t, run_tree_ops 20 (inserts (seqZ 1 13)) (scenario_tree 16 true) = Ok tt t /\
    children 3 t = Some [1; 2; 4] /\ children 8 t = Some [5; 6; 7] /\
    separators 8 t = Some [9; 11] /\ children 9 t = Some [3; 8] /\
    separators 9 t = Some [7] /\
    map (fun p => tp_parent_page_id <$> tree_page p t) [5; 6; 7] = [Some 8; Some 8; Some 8].
Proof.
  eexists. split; [vm_compute; reflexivity|].
  repeat apply conj; vm_compute; reflexivity.
Qed.

Section monad_steps.

Lemma bind_Ok {A B} (m : M A) (f : A -> M B) t a t' :
  m t = Ok a t' -> (m ≫= f) t = f a t'.
Proof. unfold mbind, M_bind. by intros ->. Qed.

Lemma bind_Crash {A B} (m : M A) (f : A -> M B) t e :
  m t = Crash e -> (m ≫= f) t = Crash e.
Proof. unfold mbind, M_bind. by intros ->. Qed.

Lemma load_Ok this t n :
  as_tree (data_ (page_at this (buffer_pool_manager_ t))) = Some n -> load this t = Ok n t.
Proof. unfold load. by intros ->. Qed.

Lemma assert_true c t : c = true -> assert_ c t = Ok tt t.
Proof. intros ->. unfold assert_. by destruct (NDEBUG t). Qed.

Lemma assert_false t : NDEBUG t = false -> assert_ false t = Crash AssertionFailed.
Proof. unfold assert_. by intros ->. Qed.

Lemma NewPageImpl_pages b frame pid b' :
  NewPageImpl b = (Some frame, pid, b') ->
  pages_ b' = <[frame := mkPage ZeroPage pid 1 false]> (pages_ b).
Proof.
  unfold NewPageImpl. destruct (find_replacement b) as [[f b1]|] eqn:Hfr; [|done].
  apply find_replacement_Some in Hfr as (_ & Hpg & _).
  destruct (AllocatePage _) as [newPID dm]. intros [= <- <- <-].
  destruct (erase_resident_fields f (set_disk dm b1)) as (_ & E2 & _).
  cbn. rewrite E2. cbn. by rewrite Hpg.
Qed.

Lemma GetSize_Ok this t n : load this t = Ok n t -> GetSize this t = Ok (tp_size n) t.
Proof. intros H. unfold GetSize. by erewrite bind_Ok. Qed.

Lemma GetMaxSize_Ok this t n : load this t = Ok n t -> GetMaxSize this t = Ok (tp_max_size n) t.
Proof. intros H. unfold GetMaxSize. by erewrite bind_Ok. Qed.

Lemma GetPageId_Ok this t n : load this t = Ok n t -> GetPageId this t = Ok (tp_page_id n) t.
Proof. intros H. unfold GetPageId. by erewrite bind_Ok. Qed.

Lemma GetParentPageId_Ok this t n :
  load this t = Ok n t -> GetParentPageId this t = Ok (tp_parent_page_id n) t.
Proof. intros H. unfold GetParentPageId. by erewrite bind_Ok. Qed.

Lemma load_total this t :
  (exists n, load this t = Ok n t) \/ load this t = Crash WrongPageKind.
Proof. unfold load. destruct (as_tree _); eauto. Qed.

(** Reading a frame that a [store] to another frame left alone. *)
Lemma load_store_ne this other n t :
  this <> other -> load this (set_bpm (upd_page other
      (fun pg => mkPage (TreeData n) (page_id_ pg) (pin_count_ pg) (is_dirty_ pg))
      (buffer_pool_manager_ t)) t) =
  match load this t with
  | Ok m _ => Ok m (set_bpm (upd_page other
      (fun pg => mkPage (TreeData n) (page_id_ pg) (pin_count_ pg) (is_dirty_ pg))
      (buffer_pool_manager_ t)) t)
  | Crash e => Crash e
  end.
Proof.
  intros Hne. unfold load. cbn [buffer_pool_manager_ set_bpm].
  rewrite page_at_upd_ne by done. by destruct (as_tree _).
Qed.

End monad_steps.

Ltac step_ok tac := erewrite bind_Ok by tac; cbv beta iota.
Ltac step_with H := erewrite bind_Ok by (exact H); cbv beta iota.

(** C6 (fails on the code in a build with assertions).  Splitting an internal
    page that holds [max_size + 1] entries never moves anything: the new page
    is initialised with size 0, and the first [recipient->SetKeyAt(0, ...)]
    of [MoveHalfTo] fails the bounds assertion of [SetKeyAt]. *)
Theorem internal_split_aborts (t : BPlusTree) (node frame : frame_id_t) (pid : page_id_t)
        (b' : BufferPoolManager) (n : TreePage) :
  NDEBUG t = false ->
  NewPageImpl (buffer_pool_manager_ t) = (Some frame, pid, b') ->
  frame <> node ->
  (frame < length (pages_ (buffer_pool_manager_ t)))%nat ->
  as_tree (data_ (page_at node (buffer_pool_manager_ t))) = Some n ->
  tp_size n = tp_max_size n + 1 ->
  0 <= tp_max_size n ->
  Split InternalNode node t = Crash AssertionFailed.
Proof.
  intros Hnd Hnew Hne Hlt Hn Hsize Hmax.
  pose proof (NewPageImpl_pages _ _ _ _ Hnew) as Hpages.
  set (t1 := set_bpm b' t).
  assert (Hnode1 : load node t1 = Ok n t1).
  { apply load_Ok. unfold page_at. cbn. rewrite Hpages.
    rewrite list_lookup_total_insert_ne by done. exact Hn. }
  assert (Hnew1 : load frame t1 = Ok zero_tree_page t1).
  { apply load_Ok. unfold page_at. cbn. rewrite Hpages.
    by rewrite list_lookup_total_insert_eq. }
  unfold Split.
  step_ok ltac:(unfold NewPage; by rewrite Hnew). fold t1.
  step_ok ltac:(by apply assert_true).
  step_ok ltac:(done).
  step_ok ltac:(by apply GetParentPageId_Ok).
  step_ok ltac:(by apply GetMaxSize_Ok).
  cbn [Init_N MoveHalfTo_N]. unfold InternalPage.Init.
  set (fresh := mkTreePage INTERNAL_PAGE 0 (tp_max_size n) (tp_parent_page_id n) pid 0 []).
  set (t2 := set_bpm (upd_page frame
                (fun pg => mkPage (TreeData fresh) (page_id_ pg) (pin_count_ pg) (is_dirty_ pg))
                (buffer_pool_manager_ t1)) t1).
  assert (Hinit : (n0 ← load frame;
                   store frame (mkTreePage INTERNAL_PAGE 0 (tp_max_size n) (tp_parent_page_id n)
                                  pid (tp_next_page_id n0) (tp_array n0))) t1 = Ok tt t2).
  { by step_with Hnew1. }
  step_with Hinit.
  assert (Hlen1 : (frame < length (pages_ (buffer_pool_manager_ t1)))%nat).
  { cbn. by rewrite Hpages, length_insert. }
  assert (Hnode2 : load node t2 = Ok n t2).
  { unfold load, t2. cbn [buffer_pool_manager_ set_bpm].
    rewrite page_at_upd_ne by done. unfold load in Hnode1.
    destruct (as_tree (data_ (page_at node (buffer_pool_manager_ t1)))); by inversion Hnode1. }
  assert (Hnew2 : load frame t2 = Ok fresh t2).
  { unfold load, t2. cbn [buffer_pool_manager_ set_bpm]. by rewrite page_at_upd_eq. }
  assert (Hnd2 : NDEBUG t2 = false) by done.
  erewrite bind_Crash; [done|].
  unfold InternalPage.MoveHalfTo.
  step_ok ltac:(by apply GetMaxSize_Ok).
  step_ok ltac:(by apply GetSize_Ok).
  step_ok ltac:(apply assert_true, bool_decide_eq_true; lia).
  step_ok ltac:(by apply GetPageId_Ok).
  erewrite bind_Crash; [done|].
  set (total := tp_max_size n + 1).
  assert (Hq : 0 <= total `quot` 2 < total).
  { split; [apply Z.quot_pos; lia | apply Z.quot_lt; lia]. }
  destruct (Z.to_nat (total - total `quot` 2)) as [|k] eqn:Hk; [lia|].
  cbn [InternalPage.MoveHalfTo_loop].
  step_ok ltac:(unfold array_at; step_with Hnode2; by rewrite decide_False by lia).
  erewrite bind_Crash; [done|].
  unfold InternalPage.SetKeyAt.
  step_ok ltac:(by apply GetSize_Ok).
  erewrite bind_Crash; [done|].
  rewrite bool_decide_eq_false_2 by (cbn; lia).
  by apply assert_false.
Qed.

Lemma internal_split_aborts_witness :
  NDEBUG overfull_internal = false /\
  Split InternalNode 2 overfull_internal = Crash AssertionFailed.
Proof.
  assert (Hnd : NDEBUG overfull_internal = false) by reflexivity.
  split; [exact Hnd|].
  eapply (internal_split_aborts overfull_internal 2 1).
  - exact Hnd.
  - vm_compute. reflexivity.
  - lia.
  - vm_compute. lia.
  - vm_compute. reflexivity.
  - vm_compute. reflexivity.
  - vm_compute. discriminate.
Defined.

(** * A larger pool runs the same program *)

Section larger_pool.
Variable k : nat.

Local Abbreviation sh := (Nat.add k).

#[local] Instance shift_inj : Inj (=) (=) sh.
Proof. intros x y. lia. Qed.

Lemma elem_of_shift f (r : list nat) : sh f ∈ sh <$> r <-> f ∈ r.
Proof. apply (list_elem_of_fmap_inj sh). Qed.

Lemma erase_first_shift f (r : list nat) :
  LRUReplacer.erase_first (sh f) (sh <$> r) = sh <$> LRUReplacer.erase_first f r.
Proof.
  induction r as [|x r IH]; [done|]. cbn.
  destruct (decide (x = f)) as [->|Hne].
  - by rewrite decide_True.
  - rewrite decide_False by lia. cbn. by rewrite IH.
Qed.

Lemma Pin_shift f (r : list nat) :
  LRUReplacer.Pin (sh f) (sh <$> r) = sh <$> LRUReplacer.Pin f r.
Proof.
  unfold LRUReplacer.Pin. destruct (decide (f ∈ r)) as [Hin|Hnin].
  - rewrite !decide_True by (done || by apply elem_of_shift). apply erase_first_shift.
  - by rewrite !decide_False by (done || by rewrite elem_of_shift).
Qed.

Lemma Unpin_shift f (r : list nat) :
  LRUReplacer.Unpin (sh f) (sh <$> r) = sh <$> LRUReplacer.Unpin f r.
Proof.
  unfold LRUReplacer.Unpin. destruct (decide (f ∈ r)) as [Hin|Hnin].
  - by rewrite !decide_True by (done || by apply elem_of_shift).
  - by rewrite !decide_False by (done || by rewrite elem_of_shift).
Qed.

Lemma page_at_extend f b : page_at (sh f) (extend k b) = page_at f b.
Proof.
  unfold page_at, extend. cbn.
  rewrite lookup_total_app_r by (rewrite length_replicate; lia).
  rewrite length_replicate. f_equal. lia.
Qed.

Lemma upd_page_extend f g b :
  upd_page (sh f) g (extend k b) = extend k (upd_page f g b).
Proof.
  unfold upd_page. rewrite page_at_extend. unfold extend, set_pages. cbn. f_equal.
  rewrite insert_app_r_alt by (rewrite length_replicate; lia).
  rewrite length_replicate. do 2 f_equal. lia.
Qed.

Lemma find_replacement_free b fl x :
  free_list_ b = fl ++ [x] -> find_replacement b = Some (x, set_free_list fl b).
Proof.
  intros Hfl. unfold find_replacement. rewrite Hfl.
  destruct (fl ++ [x]) as [|y l] eqn:E; [by destruct fl|]. rewrite <- E.
  by rewrite last_snoc, removelast_last.
Qed.

(** While the small pool has a free frame, both pools hand out the same
    frame (up to the shift). *)
Lemma find_replacement_extend b :
  free_list_ b <> [] ->
  find_replacement (extend k b) =
  (fun r : nat * BufferPoolManager => (sh r.1, extend k r.2)) <$> find_replacement b.
Proof.
  intros Hne. destruct (free_list_ b) as [|x fl _] eqn:Hfl using rev_ind; [done|].
  rewrite (find_replacement_free b fl x Hfl).
  rewrite (find_replacement_free (extend k b) (seq 0 k ++ (sh <$> fl)) (sh x)).
  - done.
  - cbn. by rewrite Hfl, fmap_app, app_assoc.
Qed.

Lemma erase_resident_extend f b :
  erase_resident (sh f) (extend k b) = extend k (erase_resident f b).
Proof.
  unfold erase_resident. rewrite page_at_extend. cbn [page_table_ extend].
  rewrite lookup_fmap. destruct (page_table_ b !! page_id_ (page_at f b)); cbn; [|done].
  unfold set_page_table, extend. cbn. by rewrite fmap_delete.
Qed.

Lemma FetchPageImpl_extend p b :
  (is_Some (page_table_ b !! p) \/ free_list_ b <> []) ->
  FetchPageImpl p (extend k b) =
  (fmap sh (FetchPageImpl p b).1, extend k (FetchPageImpl p b).2).
Proof.
  intros H. unfold FetchPageImpl. cbn [page_table_ extend]. rewrite lookup_fmap.
  destruct (page_table_ b !! p) as [f|] eqn:Hpt; cbn [fmap option_fmap option_map].
  - cbn [fst snd]. f_equal.
    change (set_replacer _ (extend k b))
      with (set_replacer (LRUReplacer.Pin (sh f) (sh <$> replacer_ b)) (extend k b)).
    rewrite Pin_shift.
    change (set_replacer (sh <$> ?r) (extend k b)) with (extend k (set_replacer r b)).
    apply upd_page_extend.
  - destruct H as [[? [=]]|Hne].
    rewrite find_replacement_extend by done.
    destruct (find_replacement b) as [[frame b1]|]; cbn [fmap option_fmap option_map fst snd];
      [|done].
    rewrite erase_resident_extend.
    set (b2 := erase_resident frame b1).
    change (replacer_ (set_page_table _ (extend k b2))) with (sh <$> replacer_ b2).
    rewrite Pin_shift.
    change (disk_manager_ (set_replacer _ (set_page_table _ (extend k b2))))
      with (disk_manager_ b2).
    change (disk_manager_ (set_replacer _ (set_page_table _ b2))) with (disk_manager_ b2).
    destruct (ReadPage p (disk_manager_ b2)) as [bytes dm]. cbn [fst snd]. f_equal.
    rewrite <- upd_page_extend. f_equal.
    unfold extend, set_disk, set_replacer, set_page_table. cbn. f_equal.
    by rewrite fmap_insert.
Qed.

Lemma NewPageImpl_extend b :
  free_list_ b <> [] ->
  NewPageImpl (extend k b) =
  (fmap sh (NewPageImpl b).1.1, (NewPageImpl b).1.2, extend k (NewPageImpl b).2).
Proof.
  intros Hne. unfold NewPageImpl.
  rewrite find_replacement_extend by done.
  destruct (find_replacement b) as [[frame b1]|]; cbn [fmap option_fmap option_map fst snd];
    [|done].
  change (disk_manager_ (extend k b1)) with (disk_manager_ b1).
  destruct (AllocatePage (disk_manager_ b1)) as [newPID dm].
  change (set_disk dm (extend k b1)) with (extend k (set_disk dm b1)).
  rewrite erase_resident_extend.
  set (b2 := erase_resident frame (set_disk dm b1)).
  change (replacer_ (set_page_table _ (extend k b2))) with (sh <$> replacer_ b2).
  rewrite Pin_shift. cbn [fst snd]. f_equal.
  rewrite <- upd_page_extend. f_equal.
  unfold extend, set_disk, set_replacer, set_page_table. cbn. f_equal.
  by rewrite fmap_insert.
Qed.

Lemma UnpinPageImpl_extend p d b :
  UnpinPageImpl p d (extend k b) = ((UnpinPageImpl p d b).1, extend k (UnpinPageImpl p d b).2).
Proof.
  unfold UnpinPageImpl. cbn [page_table_ extend]. rewrite lookup_fmap.
  destruct (page_table_ b !! p) as [f|] eqn:Hpt; cbn [fmap option_fmap option_map]; [|done].
  cbn [fst snd]. f_equal. rewrite page_at_extend.
  destruct (decide (pin_count_ (page_at f b) > 0)).
  - rewrite !upd_page_extend, page_at_extend.
    destruct (decide (pin_count_ (page_at f (upd_page f _ b)) = 0)).
    + change (replacer_ (extend k ?b)) with (sh <$> replacer_ b).
      rewrite Unpin_shift.
      change (set_replacer (sh <$> ?r) (extend k ?b)) with (extend k (set_replacer r b)).
      by rewrite upd_page_extend.
    + by rewrite upd_page_extend.
  - by rewrite upd_page_extend.
Qed.

Lemma DeletePageImpl_extend p b :
  DeletePageImpl p (extend k b) = ((DeletePageImpl p b).1, extend k (DeletePageImpl p b).2).
Proof.
  unfold DeletePageImpl. destruct (decide (p = INVALID_PAGE_ID)); [done|].
  cbn [page_table_ extend]. rewrite lookup_fmap.
  destruct (page_table_ b !! p) as [f|] eqn:Hpt; cbn [fmap option_fmap option_map]; [|done].
  rewrite page_at_extend.
  destruct (decide (pin_count_ (page_at f b) > 0)); [done|]. cbn [fst snd]. f_equal.
  set (pg := page_at f b).
  change (disk_manager_ (set_page_table _ (extend k b))) with (disk_manager_ b).
  change (disk_manager_ (set_page_table _ b)) with (disk_manager_ b).
  set (dm := DeallocatePage p _).
  change (replacer_ (set_disk dm (set_page_table _ (extend k b)))) with (sh <$> replacer_ b).
  rewrite Pin_shift.
  change (replacer_ (set_disk dm (set_page_table _ b))) with (replacer_ b).
  set (r := LRUReplacer.Pin f (replacer_ b)).
  replace (set_replacer (sh <$> r) (set_disk dm (set_page_table (delete p (sh <$> page_table_ b))
                                                   (extend k b))))
    with (extend k (set_replacer r (set_disk dm (set_page_table (delete p (page_table_ b)) b)))).
  2: { unfold extend, set_replacer, set_disk, set_page_table. cbn. f_equal.
       by rewrite fmap_delete. }
  rewrite upd_page_extend.
  unfold set_free_list, extend. cbn. f_equal.
  by rewrite fmap_app, app_assoc.
Qed.

End larger_pool.

Section simulation.
Variable k : nat.

Local Abbreviation sh := (Nat.add k).

Lemma sim_quiet {A} `{Shift A} (m m' : M A) :
  (forall t a t1, m t = Ok a t1 ->
     quiet t t1 /\ m' (extend_tree k t) = Ok (shift k a) (extend_tree k t1)) ->
  sim k m m'.
Proof.
  intros Hq. split.
  - intros t a t1 Hm. destruct (Hq t a t1 Hm) as [(Ha & Hp & _) _]. split; [lia | done].
  - intros t a t1 Hfb Hm Hlt. destruct (Hq t a t1 Hm) as [(Ha & Hp & Hl) Hm'].
    split; [done|]. unfold free_bound in *. rewrite Hp, Ha. lia.
Qed.

Lemma quiet_refl t : quiet t t.
Proof. by repeat split. Qed.

Lemma sim_Return {A} `{Shift A} (a : A) : sim k (Return a) (Return (shift k a)).
Proof. apply sim_quiet. intros t a' t1 [= <- <-]. split; [apply quiet_refl | done]. Qed.

Lemma sim_Return_eq {A} `{Shift A} (a a' : A) :
  a' = shift k a -> sim k (Return a) (Return a').
Proof. intros ->. apply sim_Return. Qed.

Lemma sim_crash {A} `{Shift A} e : sim k (crash (A:=A) e) (crash e).
Proof. apply sim_quiet. intros t a t1 [=]. Qed.

Lemma sim_bind {A B} `{Shift A} `{Shift B} (m m' : M A) (f f' : A -> M B) :
  sim k m m' -> (forall a, sim k (f a) (f' (shift k a))) ->
  sim k (m ≫= f) (m' ≫= f').
Proof.
  intros [Hm1 Hm2] Hf. split.
  - intros t b t2. unfold mbind, M_bind. destruct (m t) as [a t1|] eqn:Em; [|done].
    intros Ef. destruct (Hm1 _ _ _ Em) as [? ?].
    destruct (proj1 (Hf a) _ _ _ Ef) as [? ?]. split; [lia | congruence].
  - intros t b t2 Hfb. unfold mbind, M_bind. destruct (m t) as [a t1|] eqn:Em; [|done].
    intros Ef Hlt. destruct (Hm1 _ _ _ Em) as [? Hp].
    destruct (proj1 (Hf a) _ _ _ Ef) as [? ?].
    destruct (Hm2 _ _ _ Hfb Em) as [Em' Hfb1]; [lia|].
    rewrite Em'. apply (proj2 (Hf a)); [done | done | lia].
Qed.

Lemma sim_get_tree : sim k get_tree get_tree.
Proof. apply sim_quiet. intros t a t1 [= <- <-]. split; [apply quiet_refl | done]. Qed.

Lemma sim_set_root_page_id r : sim k (set_root_page_id r) (set_root_page_id r).
Proof. apply sim_quiet. intros t a t1 [= <- <-]. split; [by repeat split | done]. Qed.

Lemma sim_assert c : sim k (assert_ c) (assert_ c).
Proof.
  apply sim_quiet. intros t a t1. unfold assert_. cbn.
  destruct (NDEBUG t); [|destruct c]; intros [= <- <-]; (split; [apply quiet_refl | done]).
Qed.

Lemma sim_deref p : sim k (deref p) (deref (shift k p)).
Proof. destruct p; [apply sim_Return | apply sim_crash]. Qed.

Lemma sim_load this : sim k (load this) (load (sh this)).
Proof.
  apply sim_quiet. intros t a t1. unfold load. cbn. rewrite page_at_extend.
  destruct (as_tree _); intros [= <- <-]. split; [apply quiet_refl | done].
Qed.

Lemma sim_store this n : sim k (store this n) (store (sh this) n).
Proof.
  apply sim_quiet. intros t a t1 [= <- <-]. split; [by repeat split|].
  unfold store, extend_tree. cbn. by rewrite upd_page_extend.
Qed.

Lemma sim_UnpinPage p d : sim k (UnpinPage p d) (UnpinPage p d).
Proof.
  apply sim_quiet. intros t a t1. unfold UnpinPage. cbn.
  rewrite UnpinPageImpl_extend.
  destruct (UnpinPageImpl p d (buffer_pool_manager_ t)) as [r b] eqn:E.
  intros [= <- <-]. split; [|done].
  destruct (UnpinPageImpl_spec p d (buffer_pool_manager_ t)) as [Hmiss Hhit].
  destruct (page_table_ (buffer_pool_manager_ t) !! p) as [f|] eqn:Hpt.
  - unfold UnpinPageImpl in E. rewrite Hpt in E. inversion E; subst.
    unfold quiet, acquisitions. cbn.
    destruct (decide (pin_count_ (page_at f (buffer_pool_manager_ t)) > 0)); [|done].
    destruct (decide _); done.
  - rewrite Hmiss in E by done. by inversion E; subst.
Qed.

Lemma find_replacement_account b frame b1 :
  find_replacement b = Some (frame, b1) ->
  pool_size_ b1 = pool_size_ b /\ acq_b b1 = acq_b b /\
  ((free_list_ b = [] /\ free_list_ b1 = []) \/
   S (length (free_list_ b1)) = length (free_list_ b)).
Proof.
  intros (Hps & _ & _ & [(Hfl & _ & Hd) | (Hfl & Hfl1 & _ & Hd)])%find_replacement_Some.
  - split; [done|]. split; [unfold acq_b; by rewrite Hd|]. right.
    rewrite Hfl, length_app. cbn. lia.
  - split; [done|]. split; [|by left].
    unfold acq_b. rewrite Hd. by destruct (is_dirty_ _).
Qed.

Lemma FetchPageImpl_account p b :
  pool_size_ (FetchPageImpl p b).2 = pool_size_ b /\
  ((acq_b (FetchPageImpl p b).2 = acq_b b /\
    free_list_ (FetchPageImpl p b).2 = free_list_ b) \/
   (acq_b (FetchPageImpl p b).2 = S (acq_b b) /\
    ((free_list_ b = [] /\ free_list_ (FetchPageImpl p b).2 = []) \/
     S (length (free_list_ (FetchPageImpl p b).2)) = length (free_list_ b)))).
Proof.
  unfold FetchPageImpl. destruct (page_table_ b !! p) as [f|]; [by split; [|left]|].
  destruct (find_replacement b) as [[frame b1]|] eqn:Hfr; [|by split; [|left]].
  apply find_replacement_account in Hfr as (Hps & Hacq & Hfl).
  destruct (erase_resident_fields frame b1) as (E1 & E2 & E3 & E4 & E5 & E6).
  cbn. rewrite E6. cbn. split; [by rewrite E1|]. right.
  unfold acq_b. cbn. rewrite E4. fold (acq_b b1). by rewrite Hacq.
Qed.

Lemma NewPageImpl_account b :
  pool_size_ (NewPageImpl b).2 = pool_size_ b /\
  ((acq_b (NewPageImpl b).2 = acq_b b /\ free_list_ (NewPageImpl b).2 = free_list_ b) \/
   (acq_b (NewPageImpl b).2 = S (acq_b b) /\
    ((free_list_ b = [] /\ free_list_ (NewPageImpl b).2 = []) \/
     S (length (free_list_ (NewPageImpl b).2)) = length (free_list_ b)))).
Proof.
  unfold NewPageImpl.
  destruct (find_replacement b) as [[frame b1]|] eqn:Hfr; [|by split; [|left]].
  apply find_replacement_account in Hfr as (Hps & Hacq & Hfl).
  destruct (erase_resident_fields frame
              (set_disk (AllocatePage (disk_manager_ b1)).2 b1)) as (E1 & E2 & E3 & E4 & E5 & E6).
  cbn in *. split; [by rewrite E1|]. right.
  unfold acq_b. cbn. rewrite E4, E6. cbn. fold (acq_b b1). by rewrite Hacq.
Qed.

Lemma sim_acquiring {A} `{Shift A} (m : M A) (step : BufferPoolManager -> A * BufferPoolManager) :
  (forall t, m t = Ok (step (buffer_pool_manager_ t)).1
                      (set_bpm (step (buffer_pool_manager_ t)).2 t)) ->
  (forall b, pool_size_ (step b).2 = pool_size_ b /\
     ((acq_b (step b).2 = acq_b b /\ free_list_ (step b).2 = free_list_ b) \/
      (acq_b (step b).2 = S (acq_b b) /\
       ((free_list_ b = [] /\ free_list_ (step b).2 = []) \/
        S (length (free_list_ (step b).2)) = length (free_list_ b))))) ->
  (forall b, free_list_ b <> [] ->
     step (extend k b) = (shift k (step b).1, extend k (step b).2)) ->
  sim k m m.
Proof.
  intros Hm Hacc Hext. split.
  - intros t a t1. rewrite Hm. intros [= <- <-]. cbn.
    destruct (Hacc (buffer_pool_manager_ t)) as (Hps & Hcase). split; [|done].
    unfold acquisitions. cbn. fold (acq_b (step (buffer_pool_manager_ t)).2).
    fold (acq_b (buffer_pool_manager_ t)). destruct Hcase as [[-> _]|[-> _]]; lia.
  - intros t a t1 Hfb. rewrite Hm. intros [= <- <-]. cbn. intros Hlt.
    destruct (Hacc (buffer_pool_manager_ t)) as (Hps & Hcase).
    unfold free_bound, acquisitions in *. cbn in *.
    fold (acq_b (step (buffer_pool_manager_ t)).2) in *.
    fold (acq_b (buffer_pool_manager_ t)) in *.
    assert (Hne : free_list_ (buffer_pool_manager_ t) <> []).
    { intros E. rewrite E in Hfb. cbn in Hfb. destruct Hcase as [[Ha _]|[Ha _]]; lia. }
    rewrite Hm. cbn [buffer_pool_manager_ extend_tree set_bpm]. rewrite Hext by done.
    cbn. split; [done|].
    destruct Hcase as [[Ha Hfl]|[Ha Hfl]].
    + rewrite Hps, Ha, Hfl. lia.
    + destruct Hfl as [[? _]|Hfl]; [done|]. rewrite Hps, Ha. lia.
Qed.

Lemma sim_FetchPage p : sim k (FetchPage p) (FetchPage p).
Proof.
  apply (sim_acquiring _ (FetchPageImpl p)).
  - intros t. unfold FetchPage. by destruct (FetchPageImpl p _).
  - apply FetchPageImpl_account.
  - intros b Hb. apply FetchPageImpl_extend. by right.
Qed.

Lemma sim_NewPage : sim k NewPage NewPage.
Proof.
  apply (sim_acquiring _ (fun b => ((NewPageImpl b).1, (NewPageImpl b).2))).
  - intros t. unfold NewPage. by destruct (NewPageImpl _) as [[r pid] b].
  - apply NewPageImpl_account.
  - intros b Hb. cbn. by rewrite NewPageImpl_extend.
Qed.

Lemma sim_DeletePage p : sim k (DeletePage p) (DeletePage p).
Proof.
  apply sim_quiet. intros t a t1. unfold DeletePage. cbn.
  rewrite DeletePageImpl_extend.
  destruct (DeletePageImpl p (buffer_pool_manager_ t)) as [r b] eqn:E.
  intros [= <- <-]. split; [|done].
  unfold DeletePageImpl in E. destruct (decide (p = INVALID_PAGE_ID)).
  { inversion E; subst. by repeat split. }
  destruct (page_table_ (buffer_pool_manager_ t) !! p) as [f|].
  2: { inversion E; subst. by repeat split. }
  destruct (decide (pin_count_ (page_at f (buffer_pool_manager_ t)) > 0)).
  { inversion E; subst. by repeat split. }
  inversion E; subst. unfold quiet, acquisitions. cbn. rewrite length_app. cbn.
  repeat split; [|lia]. by destruct (is_dirty_ _).
Qed.

Create HintDb sim.

#[local] Hint Resolve sim_get_tree sim_set_root_page_id sim_assert sim_deref sim_load sim_store
  sim_UnpinPage sim_FetchPage sim_NewPage sim_DeletePage : sim.

Ltac unshift :=
  unfold shift, Shift_Z, Shift_bool, Shift_unit, Shift_TreePage, Shift_entry, Shift_records,
    Shift_value, Shift_frame, Shift_pointer, Shift_new_page, Shift_sibling, Shift_tree;
  cbv beta.

Ltac sim_norm :=
  unshift;
  cbn [fmap option_fmap option_map fst snd extend_tree set_bpm root_page_id_ leaf_max_size_
       internal_max_size_ index_name_ buffer_pool_manager_];
  rewrite ?page_at_extend.

Ltac sim_go :=
  repeat (first
    [ apply sim_Return_eq; reflexivity
    | apply sim_crash
    | solve [eauto with sim nocore]
    | apply sim_bind; [ | intros ?; try (progress sim_norm) ]
    | match goal with
      | x : option nat |- _ => destruct x; try (progress sim_norm)
      | x : (option nat * Z)%type |- _ => destruct x as [? ?]; try (progress sim_norm)
      | x : (option nat * bool)%type |- _ => destruct x as [? []]; try (progress sim_norm)
      | |- sim _ (if decide ?P then _ else _) _ => destruct (decide P)
      | |- sim _ (if bool_decide ?P then _ else _) _ => destruct (bool_decide P)
      | |- sim _ (if ?b then _ else _) _ => destruct b
      | |- sim _ (match ?x with Some _ => _ | None => _ end) _ => destruct x
      | |- sim _ (match ?x with [] => _ | _ :: _ => _ end) _ => destruct x
      end ]).

Lemma sim_modify this g : sim k (modify this g) (modify (sh this) g).
Proof. unfold modify. sim_go. Qed.

Lemma sim_array_at this i : sim k (array_at this i) (array_at (sh this) i).
Proof. unfold array_at. sim_go. Qed.

Lemma sim_array_set this i g : sim k (array_set this i g) (array_set (sh this) i g).
Proof. unfold array_set. sim_go. Qed.

Lemma sim_GetSize this : sim k (GetSize this) (GetSize (sh this)).
Proof. unfold GetSize. sim_go. Qed.

Lemma sim_SetSize this s : sim k (SetSize this s) (SetSize (sh this) s).
Proof. apply sim_modify. Qed.

Lemma sim_IncreaseSize this a : sim k (IncreaseSize this a) (IncreaseSize (sh this) a).
Proof. apply sim_modify. Qed.

Lemma sim_GetMaxSize this : sim k (GetMaxSize this) (GetMaxSize (sh this)).
Proof. unfold GetMaxSize. sim_go. Qed.

Lemma sim_GetPageId this : sim k (GetPageId this) (GetPageId (sh this)).
Proof. unfold GetPageId. sim_go. Qed.

Lemma sim_GetParentPageId this : sim k (GetParentPageId this) (GetParentPageId (sh this)).
Proof. unfold GetParentPageId. sim_go. Qed.

Lemma sim_SetParentPageId this p :
  sim k (SetParentPageId this p) (SetParentPageId (sh this) p).
Proof. apply sim_modify. Qed.

Lemma sim_IsLeafPage this : sim k (IsLeafPage this) (IsLeafPage (sh this)).
Proof. unfold IsLeafPage. sim_go. Qed.

Lemma sim_IsRootPage this : sim k (IsRootPage this) (IsRootPage (sh this)).
Proof. unfold IsRootPage. sim_go. Qed.

Lemma sim_GetMinSize this : sim k (GetMinSize this) (GetMinSize (sh this)).
Proof. unfold GetMinSize. sim_go. Qed.

#[local] Hint Resolve sim_modify sim_array_at sim_array_set sim_GetSize sim_SetSize
  sim_IncreaseSize sim_GetMaxSize sim_GetPageId sim_GetParentPageId sim_SetParentPageId
  sim_IsLeafPage sim_IsRootPage sim_GetMinSize : sim.

(** Internal pages *)

Lemma sim_Internal_Init this pid par max :
  sim k (InternalPage.Init this pid par max) (InternalPage.Init (sh this) pid par max).
Proof. unfold InternalPage.Init. sim_go. Qed.

Lemma sim_Internal_KeyAt this i :
  sim k (InternalPage.KeyAt this i) (InternalPage.KeyAt (sh this) i).
Proof. unfold InternalPage.KeyAt. sim_go. Qed.

Lemma sim_Internal_SetKeyAt this i key :
  sim k (InternalPage.SetKeyAt this i key) (InternalPage.SetKeyAt (sh this) i key).
Proof. unfold InternalPage.SetKeyAt. sim_go. Qed.

Lemma sim_Internal_KeyIndex this key :
  sim k (InternalPage.KeyIndex this key) (InternalPage.KeyIndex (sh this) key).
Proof. unfold InternalPage.KeyIndex. sim_go. Qed.

Lemma sim_Internal_ValueIndex this v :
  sim k (InternalPage.ValueIndex this v) (InternalPage.ValueIndex (sh this) v).
Proof. unfold InternalPage.ValueIndex. sim_go. Qed.

Lemma sim_Internal_ValueAt this i :
  sim k (InternalPage.ValueAt this i) (InternalPage.ValueAt (sh this) i).
Proof. unfold InternalPage.ValueAt. sim_go. Qed.

Lemma sim_Internal_SetValueAt this i v :
  sim k (InternalPage.SetValueAt this i v) (InternalPage.SetValueAt (sh this) i v).
Proof. unfold InternalPage.SetValueAt. sim_go. Qed.

#[local] Hint Resolve sim_Internal_Init sim_Internal_KeyAt sim_Internal_SetKeyAt
  sim_Internal_KeyIndex sim_Internal_ValueIndex sim_Internal_ValueAt sim_Internal_SetValueAt
  : sim.

Lemma sim_Internal_Lookup this key :
  sim k (InternalPage.Lookup this key) (InternalPage.Lookup (sh this) key).
Proof. unfold InternalPage.Lookup. sim_go. Qed.

Lemma sim_Internal_PopulateNewRoot this o key n :
  sim k (InternalPage.PopulateNewRoot this o key n)
        (InternalPage.PopulateNewRoot (sh this) o key n).
Proof. unfold InternalPage.PopulateNewRoot. sim_go. Qed.

Lemma sim_Internal_InsertNodeAfter this o key n :
  sim k (InternalPage.InsertNodeAfter this o key n)
        (InternalPage.InsertNodeAfter (sh this) o key n).
Proof. unfold InternalPage.InsertNodeAfter. sim_go. Qed.

Lemma sim_Internal_adopt this i p :
  sim k (InternalPage.adopt this i p) (InternalPage.adopt (sh this) i p).
Proof. unfold InternalPage.adopt. sim_go. Qed.

#[local] Hint Resolve sim_Internal_Lookup sim_Internal_PopulateNewRoot
  sim_Internal_InsertNodeAfter sim_Internal_adopt : sim.

Lemma sim_Internal_MoveHalfTo_loop n : forall this recipient rp c i,
  sim k (InternalPage.MoveHalfTo_loop this recipient rp c i n)
        (InternalPage.MoveHalfTo_loop (sh this) (sh recipient) rp c i n).
Proof.
  induction n as [|n IH]; intros; cbn [InternalPage.MoveHalfTo_loop]; sim_go.
Qed.

Lemma sim_Internal_MoveAllTo_loop n : forall this recipient rp c i,
  sim k (InternalPage.MoveAllTo_loop this recipient rp c i n)
        (InternalPage.MoveAllTo_loop (sh this) (sh recipient) rp c i n).
Proof.
  induction n as [|n IH]; intros; cbn [InternalPage.MoveAllTo_loop]; sim_go.
Qed.

#[local] Hint Resolve sim_Internal_MoveHalfTo_loop sim_Internal_MoveAllTo_loop : sim.

Lemma sim_Internal_MoveHalfTo this recipient :
  sim k (InternalPage.MoveHalfTo this recipient)
        (InternalPage.MoveHalfTo (sh this) (sh recipient)).
Proof. unfold InternalPage.MoveHalfTo. sim_go. Qed.

Lemma sim_Internal_Remove this i :
  sim k (InternalPage.Remove this i) (InternalPage.Remove (sh this) i).
Proof. unfold InternalPage.Remove. sim_go. Qed.

Lemma sim_Internal_RemoveAndReturnOnlyChild this :
  sim k (InternalPage.RemoveAndReturnOnlyChild this)
        (InternalPage.RemoveAndReturnOnlyChild (sh this)).
Proof. unfold InternalPage.RemoveAndReturnOnlyChild. sim_go. Qed.

Lemma sim_Internal_MoveAllTo this recipient key :
  sim k (InternalPage.MoveAllTo this recipient key)
        (InternalPage.MoveAllTo (sh this) (sh recipient) key).
Proof. unfold InternalPage.MoveAllTo. sim_go. Qed.

Lemma sim_Internal_CopyLastFrom this pair :
  sim k (InternalPage.CopyLastFrom this pair) (InternalPage.CopyLastFrom (sh this) pair).
Proof. unfold InternalPage.CopyLastFrom. sim_go. Qed.

Lemma sim_Internal_CopyFirstFrom this pair :
  sim k (InternalPage.CopyFirstFrom this pair) (InternalPage.CopyFirstFrom (sh this) pair).
Proof. unfold InternalPage.CopyFirstFrom. sim_go. Qed.

#[local] Hint Resolve sim_Internal_MoveHalfTo sim_Internal_Remove
  sim_Internal_RemoveAndReturnOnlyChild sim_Internal_MoveAllTo sim_Internal_CopyLastFrom
  sim_Internal_CopyFirstFrom : sim.

Lemma sim_Internal_MoveFirstToEndOf this recipient key :
  sim k (InternalPage.MoveFirstToEndOf this recipient key)
        (InternalPage.MoveFirstToEndOf (sh this) (sh recipient) key).
Proof. unfold InternalPage.MoveFirstToEndOf. sim_go. Qed.

Lemma sim_Internal_MoveLastToFrontOf this recipient key :
  sim k (InternalPage.MoveLastToFrontOf this recipient key)
        (InternalPage.MoveLastToFrontOf (sh this) (sh recipient) key).
Proof. unfold InternalPage.MoveLastToFrontOf. sim_go. Qed.

#[local] Hint Resolve sim_Internal_MoveFirstToEndOf sim_Internal_MoveLastToFrontOf : sim.

(** Leaf pages and the header page *)

Lemma sim_Leaf_Init this pid par max :
  sim k (LeafPage.Init this pid par max) (LeafPage.Init (sh this) pid par max).
Proof. unfold LeafPage.Init. sim_go. Qed.

Lemma sim_Leaf_Lookup this key :
  sim k (LeafPage.Lookup this key) (LeafPage.Lookup (sh this) key).
Proof. unfold LeafPage.Lookup. sim_go. Qed.

Lemma sim_Leaf_Insert this key v :
  sim k (LeafPage.Insert this key v) (LeafPage.Insert (sh this) key v).
Proof. unfold LeafPage.Insert. sim_go. Qed.

Lemma sim_Leaf_RemoveAndDeleteRecord this key :
  sim k (LeafPage.RemoveAndDeleteRecord this key)
        (LeafPage.RemoveAndDeleteRecord (sh this) key).
Proof. unfold LeafPage.RemoveAndDeleteRecord. sim_go. Qed.

Lemma sim_Leaf_KeyAt this i : sim k (LeafPage.KeyAt this i) (LeafPage.KeyAt (sh this) i).
Proof. unfold LeafPage.KeyAt. sim_go. Qed.

Lemma sim_Leaf_MoveHalfTo this recipient :
  sim k (LeafPage.MoveHalfTo this recipient) (LeafPage.MoveHalfTo (sh this) (sh recipient)).
Proof. unfold LeafPage.MoveHalfTo. sim_go. Qed.

Lemma sim_Leaf_MoveAllTo this recipient key :
  sim k (LeafPage.MoveAllTo this recipient key)
        (LeafPage.MoveAllTo (sh this) (sh recipient) key).
Proof. unfold LeafPage.MoveAllTo. sim_go. Qed.

Lemma sim_Leaf_update_separator this rid key :
  sim k (LeafPage.update_separator this rid key)
        (LeafPage.update_separator (sh this) rid key).
Proof. unfold LeafPage.update_separator. sim_go. Qed.

#[local] Hint Resolve sim_Leaf_Init sim_Leaf_Lookup sim_Leaf_Insert
  sim_Leaf_RemoveAndDeleteRecord sim_Leaf_KeyAt sim_Leaf_MoveHalfTo sim_Leaf_MoveAllTo
  sim_Leaf_update_separator : sim.

Lemma sim_Leaf_MoveFirstToEndOf this recipient key :
  sim k (LeafPage.MoveFirstToEndOf this recipient key)
        (LeafPage.MoveFirstToEndOf (sh this) (sh recipient) key).
Proof. unfold LeafPage.MoveFirstToEndOf. sim_go. Qed.

Lemma sim_Leaf_MoveLastToFrontOf this recipient key :
  sim k (LeafPage.MoveLastToFrontOf this recipient key)
        (LeafPage.MoveLastToFrontOf (sh this) (sh recipient) key).
Proof. unfold LeafPage.MoveLastToFrontOf. sim_go. Qed.

Lemma sim_load_header this :
  sim k (HeaderPage.load_header this) (HeaderPage.load_header (sh this)).
Proof.
  apply sim_quiet. intros t a t1. unfold HeaderPage.load_header. cbn. rewrite page_at_extend.
  destruct (as_header _); intros [= <- <-]. split; [apply quiet_refl | done].
Qed.

Lemma sim_store_header this recs :
  sim k (HeaderPage.store_header this recs) (HeaderPage.store_header (sh this) recs).
Proof.
  apply sim_quiet. intros t a t1 [= <- <-]. split; [by repeat split|].
  unfold HeaderPage.store_header, extend_tree. cbn. by rewrite upd_page_extend.
Qed.

#[local] Hint Resolve sim_Leaf_MoveFirstToEndOf sim_Leaf_MoveLastToFrontOf sim_load_header
  sim_store_header : sim.

Lemma sim_InsertRecord this name r :
  sim k (HeaderPage.InsertRecord this name r) (HeaderPage.InsertRecord (sh this) name r).
Proof. unfold HeaderPage.InsertRecord. sim_go. Qed.

Lemma sim_UpdateRecord this name r :
  sim k (HeaderPage.UpdateRecord this name r) (HeaderPage.UpdateRecord (sh this) name r).
Proof. unfold HeaderPage.UpdateRecord. sim_go. Qed.

#[local] Hint Resolve sim_InsertRecord sim_UpdateRecord : sim.

(** The tree *)

Lemma sim_FetchTreePage p : sim k (FetchTreePage p) (FetchTreePage p).
Proof. unfold FetchTreePage. sim_go. Qed.

Lemma sim_UpdateRootPageId i : sim k (UpdateRootPageId i) (UpdateRootPageId i).
Proof. unfold UpdateRootPageId. sim_go. Qed.

#[local] Hint Resolve sim_FetchTreePage sim_UpdateRootPageId : sim.

Lemma sim_FindLeafPage_loop fuel : forall key leftMost cur pointer,
  sim k (FindLeafPage_loop fuel key leftMost cur pointer)
        (FindLeafPage_loop fuel key leftMost cur (sh pointer)).
Proof.
  induction fuel as [|fuel IH]; intros; cbn [FindLeafPage_loop]; sim_go.
Qed.

#[local] Hint Resolve sim_FindLeafPage_loop : sim.

Lemma sim_FindLeafPage fuel key leftMost :
  sim k (FindLeafPage fuel key leftMost) (FindLeafPage fuel key leftMost).
Proof. unfold FindLeafPage, IsEmpty. sim_go. Qed.

#[local] Hint Resolve sim_FindLeafPage : sim.

Lemma sim_GetValue fuel key : sim k (GetValue fuel key) (GetValue fuel key).
Proof. unfold GetValue. sim_go. Qed.

Lemma sim_StartNewTree key v : sim k (StartNewTree key v) (StartNewTree key v).
Proof. unfold StartNewTree. sim_go. Qed.

Lemma sim_Split kind node : sim k (Split kind node) (Split kind (sh node)).
Proof. unfold Split, Init_N, MoveHalfTo_N. destruct kind; sim_go. Qed.

#[local] Hint Resolve sim_GetValue sim_StartNewTree sim_Split : sim.

Lemma sim_InsertIntoParent fuel : forall old_node key new_node,
  sim k (InsertIntoParent fuel old_node key new_node)
        (InsertIntoParent fuel (sh old_node) key (sh new_node)).
Proof.
  induction fuel as [|fuel IH]; intros; cbn [InsertIntoParent]; sim_go.
Qed.

#[local] Hint Resolve sim_InsertIntoParent : sim.

Lemma sim_InsertIntoLeaf fuel key v : sim k (InsertIntoLeaf fuel key v) (InsertIntoLeaf fuel key v).
Proof. unfold InsertIntoLeaf. sim_go. Qed.

#[local] Hint Resolve sim_InsertIntoLeaf : sim.

Lemma sim_Insert fuel key v : sim k (Insert fuel key v) (Insert fuel key v).
Proof. unfold Insert, IsEmpty. sim_go. Qed.

Lemma sim_AdjustRoot node : sim k (AdjustRoot node) (AdjustRoot (sh node)).
Proof. unfold AdjustRoot. sim_go. Qed.

Lemma sim_FindSibling node : sim k (FindSibling node) (FindSibling (sh node)).
Proof. unfold FindSibling. sim_go. Qed.

Lemma sim_Redistribute kind neighbor node i key :
  sim k (Redistribute kind neighbor node i key)
        (Redistribute kind (sh neighbor) (sh node) i key).
Proof.
  unfold Redistribute, MoveFirstToEndOf_N, MoveLastToFrontOf_N. destruct kind; sim_go.
Qed.

#[local] Hint Resolve sim_Insert sim_AdjustRoot sim_FindSibling sim_Redistribute : sim.

Lemma sim_MoveAllTo_N kind this recipient key :
  sim k (MoveAllTo_N kind this recipient key)
        (MoveAllTo_N kind (sh this) (sh recipient) key).
Proof. destruct kind; cbn [MoveAllTo_N]; sim_go. Qed.

#[local] Hint Resolve sim_MoveAllTo_N : sim.

Lemma sim_CoalesceOrRedistribute fuel : forall kind node,
  sim k (CoalesceOrRedistribute fuel kind node) (CoalesceOrRedistribute fuel kind (sh node)).
Proof.
  induction fuel as [|fuel IH]; intros; cbn [CoalesceOrRedistribute]; sim_go.
Qed.

#[local] Hint Resolve sim_CoalesceOrRedistribute : sim.

Lemma sim_Remove fuel key : sim k (Remove fuel key) (Remove fuel key).
Proof. unfold Remove, IsEmpty. sim_go. Qed.

#[local] Hint Resolve sim_Remove : sim.

Lemma sim_run_tree_ops fuel os : sim k (run_tree_ops fuel os) (run_tree_ops fuel os).
Proof.
  induction os as [|o os IH]; cbn [run_tree_ops]; [sim_go|].
  destruct o; unfold run_tree_op; sim_go.
Qed.

(** What is observed of a tree does not depend on the extra frames. *)

Lemma tree_page_extend p t : tree_page p (extend_tree k t) = tree_page p t.
Proof.
  unfold tree_page. cbn. rewrite lookup_fmap.
  destruct (page_table_ (buffer_pool_manager_ t) !! p); cbn; [by rewrite page_at_extend | done].
Qed.

Lemma page_entries_extend p t : page_entries p (extend_tree k t) = page_entries p t.
Proof. unfold page_entries. by rewrite tree_page_extend. Qed.

Lemma resident_extend p t : resident p (extend_tree k t) = resident p t.
Proof.
  unfold resident. cbn. rewrite lookup_fmap.
  by destruct (page_table_ (buffer_pool_manager_ t) !! p).
Qed.

Lemma merged_extend t :
  merged_with_right_sibling (extend_tree k t) = merged_with_right_sibling t.
Proof.
  unfold merged_with_right_sibling, children, separators.
  by rewrite !page_entries_extend, resident_extend.
Qed.

Lemma lookup_after_extend fuel key t :
  free_bound t -> lookup_within fuel key t = true ->
  lookup_after fuel [] key (extend_tree k t) = lookup_after fuel [] key t.
Proof.
  intros Hfb. unfold lookup_within, lookup_after. cbn [run_tree_ops]. unfold Return. cbn.
  destruct (GetValue fuel key t) as [v t'|] eqn:E; [|done].
  intros Hlt%bool_decide_eq_true.
  destruct (proj2 (sim_GetValue fuel key) t v t' Hfb E Hlt) as [-> _]. done.
Qed.

Lemma new_BufferPoolManager_extend n dm :
  new_BufferPoolManager (k + n) dm = extend k (new_BufferPoolManager n dm).
Proof.
  unfold new_BufferPoolManager, extend. cbn.
  by rewrite replicate_add, fmap_empty, seq_app, fmap_add_seq, Nat.add_0_r.
Qed.

Lemma scenario_tree_extend n nd :
  n <> 0%nat -> scenario_tree (k + n) nd = extend_tree k (scenario_tree n nd).
Proof.
  intros Hn. unfold scenario_tree, new_BPlusTree, extend_tree. cbn.
  rewrite new_BufferPoolManager_extend, NewPageImpl_extend; [done|].
  cbn. by destruct n.
Qed.

End simulation.

(** C2 (amended).  With leaf_max = 4, internal_max = 5 and a pool of at least
    16 frames, after inserting 1..10 in ascending order and removing 1, the
    underfull leftmost leaf is merged with its right sibling (their sizes
    1 + 2 fit in one leaf), the sibling's page is deleted and its separator
    is removed from the parent; GetValue(1) returns false and GetValue(i)
    returns i for every i in 2..10.  This holds with and without assertions. *)
Theorem scenario3_merges (pool_size : nat) (ndebug : bool) :
  (16 <= pool_size)%nat -> scenario3_outcome pool_size ndebug = true.
Proof.
  intros Hn. replace pool_size with ((pool_size - 16) + 16)%nat by lia.
  set (k := (pool_size - 16)%nat). clearbody k. clear Hn pool_size.
  unfold scenario3_outcome. rewrite scenario_tree_extend by done.
  assert (Hrun : exists t,
            run_tree_ops 20 scenario3 (scenario_tree 16 ndebug) = Ok tt t /\
            free_bound (scenario_tree 16 ndebug) /\
            (acquisitions t < 16)%nat /\
            merged_with_right_sibling t = true /\
            Forall (fun i => lookup_within 20 i t = true) (seqZ 1 10) /\
            lookup_after 20 [] 1 t = inr None /\
            (fun i => lookup_after 20 [] i t) <$> seqZ 2 9
            = map (fun i => inr (Some i)) (seqZ 2 9)).
  { destruct ndebug; eexists;
      (split; [vm_compute; reflexivity|]);
      (split; [unfold free_bound; vm_compute; lia|]);
      (split; [vm_compute; lia|]);
      (split; [vm_compute; reflexivity|]);
      (split; [apply Forall_forall; intros i Hi; cbn in Hi;
               repeat (apply elem_of_cons in Hi as [->|Hi]; [vm_compute; reflexivity|]);
               by apply not_elem_of_nil in Hi|]);
      split; vm_compute; reflexivity. }
  destruct Hrun as (t & Hrun & Hfb & Hacq & Hmerged & Hwithin & Hl1 & Hls).
  destruct (proj2 (sim_run_tree_ops k 20 scenario3) _ _ _ Hfb Hrun) as [-> Hfb'];
    [exact Hacq|].
  change (shift k tt) with tt. cbv beta iota.
  rewrite merged_extend, Hmerged.
  rewrite Forall_forall in Hwithin.
  rewrite lookup_after_extend by (done || (apply Hwithin, elem_of_seqZ; lia)).
  rewrite Hl1.
  rewrite (list_fmap_ext _ (fun i => lookup_after 20 [] i t) (seqZ 2 9)).
  2: { intros j i Hi%list_elem_of_lookup_2. apply lookup_after_extend; [done|].
       apply Hwithin. apply elem_of_seqZ in Hi. apply elem_of_seqZ. lia. }
  rewrite Hls. done.
Qed.

Lemma scenario3_merges_witness :
  (16 <= 100)%nat /\ scenario3_outcome 100 false = true.
Proof.
  assert (H : (16 <= 100)%nat) by lia.
  exact (conj H (scenario3_merges 100 false H)).
Defined.
